(** * mysql2-express-session: the session store of [src/index.ts]

    A shallow embedding of the [MySQLStore] class and of the part of
    JavaScript it relies on, followed by the properties of the store.

    - [JS]: the values a session payload, a query parameter and a query
      result are made of, and the operators the source applies to them.
    - [Opt]: the options object, its defaults and the spread merges.
    - [MySQLStore]: the class. A method is a computation in a state and
      exception monad over the fields of the object and its environment
      (the clock, the logger, the timers, the connection, the completion
      callbacks and the readiness waiters).
    - [RefDB]: a reference semantics of the SQL statements the store
      issues, as one table keyed by the session id; [Unreachable]: a
      connection that rejects every statement.

    How the source is read. An [async] method is run to completion: the
    statement it awaits is answered by the connection before the next
    line of the method. A completion callback records its arguments and
    returns. A number is an integer or NaN. The built-ins whose answer
    the engine fixes ([JSON.stringify], [JSON.parse], [Date.parse] and
    the conversions of objects to strings and of strings to numbers) are
    the methods of a class, and the properties hold for every instance
    of it. *)

From Stdlib Require Import ZArith Lia List Ascii String DecimalString.
From stdpp Require Import base option list strings gmap fin_maps.
Import ListNotations.

Local Open Scope string_scope.
Local Open Scope Z_scope.
Set Warnings "-register-all".

(* ===================================================================== *)
(** * JavaScript values                                                   *)
(* ===================================================================== *)

Module JS.

(** A number is a finite integer or NaN: every number the store computes
    with is a time in milliseconds or seconds, or a row count. A [Date]
    holds its time value, [None] for an invalid date. An object is given
    by the properties of its own, in the order they were added. *)
Inductive value : Type :=
| VUndefined
| VNull
| VBool (b : bool)
| VNum (n : Z)
| VNaN
| VStr (s : string)
| VDate (t : option Z)
| VArr (items : list value)
| VObj (props : list (string * value)).

(** What can be thrown, or handed to a callback as its error. *)
Inductive error : Type :=
| TypeError (msg : string)
| SyntaxError (msg : string)
| Error (msg : string)
| DriverError (code : string).

(** Built-ins whose result is fixed by the engine, not by this program. *)
Class Runtime := {
  JSON_stringify : value -> string;
  (** [None]: [JSON.parse] throws a [SyntaxError]. *)
  JSON_parse : string -> option value;
  (** [None]: NaN. *)
  Date_parse : string -> option Z;
  (** [ToString] of an array or an object. *)
  ToString : value -> string;
  (** [None]: NaN. *)
  StringToNumber : string -> option Z }.

(** [!!v] *)
Definition truthy (v : value) : bool :=
  match v with
  | VUndefined | VNull | VNaN => false
  | VBool b => b
  | VNum n => negb (n =? 0)
  | VStr s => negb (String.eqb s "")
  | VDate _ | VArr _ | VObj _ => true
  end.

Fixpoint assoc {V} (k : string) (o : list (string * V)) : option V :=
  match o with
  | [] => None
  | (k', v) :: o' => if String.eqb k k' then Some v else assoc k o'
  end.

(** [k] is made an own property of [o] that holds [v], as a spread and
    an assignment that finds no setter do: an own key keeps its place. *)
Fixpoint obj_set {V} (o : list (string * V)) (k : string) (v : V)
  : list (string * V) :=
  match o with
  | [] => [(k, v)]
  | (k', v') :: o' =>
      if String.eqb k k' then (k, v) :: o' else (k', v') :: obj_set o' k v
  end.

(** [{...base, ...over}] *)
Definition spread {V} (base over : list (string * V)) : list (string * V) :=
  fold_left (fun acc kv => obj_set acc (fst kv) (snd kv)) over base.

(** [Object.keys(o)] *)
Definition keys {V} (o : list (string * V)) : list string := map fst o.

(** [l.includes(k)] on an array of strings. *)
Definition includes (l : list string) (k : string) : bool :=
  existsb (String.eqb k) l.

(** [v.k] for the property names the source reads ([cookie], [expires],
    [_expires], [data], [session_id] and the count column): none of them is a
    built-in property of a primitive, an array or a date. *)
Definition member (v : value) (k : string) : error + value :=
  match v with
  | VUndefined => inl (TypeError "Cannot read properties of undefined")
  | VNull => inl (TypeError "Cannot read properties of null")
  | VObj props => inr (default VUndefined (assoc k props))
  | _ => inr VUndefined
  end.

(** [v[0]] *)
Definition index0 (v : value) : error + value :=
  match v with
  | VUndefined => inl (TypeError "Cannot read properties of undefined")
  | VNull => inl (TypeError "Cannot read properties of null")
  | VArr items => inr (default VUndefined (head items))
  | VStr (String c _) => inr (VStr (String c EmptyString))
  | VObj props => inr (default VUndefined (assoc "0" props))
  | _ => inr VUndefined
  end.

(** [const [x] = v]: [v] has to be iterable; [None] is the [undefined]
    an [async] function resolves to when it falls off its end. *)
Definition destructure_first (v : option value) : error + value :=
  match v with
  | None => inl (TypeError "undefined is not iterable")
  | Some (VArr items) => inr (default VUndefined (head items))
  | Some (VStr (String c _)) => inr (VStr (String c EmptyString))
  | Some (VStr EmptyString) => inr VUndefined
  | Some _ => inl (TypeError "object is not iterable")
  end.

(** [Math.round(ms / 1000)] for an integral [ms]: the nearest integer,
    a tie going up. *)
Definition round_div1000 (ms : Z) : Z := (ms + 500) / 1000.

(** The time value range of a [Date]. *)
Definition TimeClip (t : Z) : option Z :=
  if Z.abs t <=? 8640000000000000 then Some t else None.

(** [new Date(v).getTime()], for [v] not a [Date]. *)
Definition new_Date_time `{Runtime} (v : value) : option Z :=
  match v with
  | VUndefined | VNaN => None
  | VNull => Some 0
  | VBool b => Some (if b then 1 else 0)
  | VNum n => TimeClip n
  | VStr s => Date_parse s
  | VDate t => t
  | VArr _ | VObj _ => Date_parse (ToString v)
  end.

(** [ToNumber(v)], [None] for NaN. *)
Definition ToNumber `{Runtime} (v : value) : option Z :=
  match v with
  | VUndefined | VNaN => None
  | VNull => Some 0
  | VBool b => Some (if b then 1 else 0)
  | VNum n => Some n
  | VStr s => StringToNumber s
  | VDate t => t
  | VArr _ | VObj _ => StringToNumber (ToString v)
  end.

(** [v < n] for a number [n]. *)
Definition lt_num `{Runtime} (v : value) (n : Z) : bool :=
  match ToNumber v with
  | Some a => a <? n
  | None => false
  end.

(** Decimal digits of an integer, as [n + 'ms'] prints it. *)
Definition Number_toString (n : Z) : string :=
  NilZero.string_of_int (Z.to_int n).

(** [o[v] = ...]: the property key a value stands for. *)
Definition ToPropertyKey `{Runtime} (v : value) : string :=
  match v with
  | VStr s => s
  | VUndefined => "undefined"
  | VNull => "null"
  | VBool b => if b then "true" else "false"
  | VNum n => Number_toString n
  | VNaN => "NaN"
  | VDate _ | VArr _ | VObj _ => ToString v
  end.

(** What an object inherits from: [Object.prototype], as every object
    literal and every object [JSON.parse] makes does, nothing, or an
    object that was put in its place. *)
Inductive prototype :=
| ObjectPrototype
| NoPrototype
| Inherits (v : value).

(** An object that is being filled: a [value] gives an object by its own
    properties, and this its prototype beside them. *)
Record object := {
  obj_proto : prototype;
  obj_own : list (string * value) }.

(** [{}] *)
Definition empty_object : object :=
  {| obj_proto := ObjectPrototype; obj_own := [] |}.

(** Looking [__proto__] up from the prototype [p] on ends at the accessor
    of [Object.prototype]: no object on the way has a property of its
    own under that name. An array and a date have none, and inherit
    from [Object.prototype] through prototypes that have none either. *)
Definition reaches_accessor (p : prototype) : bool :=
  match p with
  | ObjectPrototype => true
  | NoPrototype => false
  | Inherits (VObj props) =>
      match assoc "__proto__" props with
      | Some _ => false
      | None => true
      end
  | Inherits _ => true
  end.

(** [o[k] = v], the properties of [o] and of what it inherits from being
    writable data properties, but for the accessor [__proto__] of
    [Object.prototype]. Under any other key, and under [__proto__] when
    [o] has it as its own or the lookup does not end at the accessor,
    [v] becomes an own property of [o]. Otherwise the setter of the
    accessor runs: it makes an object or [null] the prototype of [o],
    ignores any other value, and adds no property. *)
Definition assign (o : object) (k : string) (v : value) : object :=
  if String.eqb k "__proto__" then
    match assoc k (obj_own o) with
    | Some _ => {| obj_proto := obj_proto o; obj_own := obj_set (obj_own o) k v |}
    | None =>
        if reaches_accessor (obj_proto o) then
          match v with
          | VNull => {| obj_proto := NoPrototype; obj_own := obj_own o |}
          | VDate _ | VArr _ | VObj _ =>
              {| obj_proto := Inherits v; obj_own := obj_own o |}
          | _ => o
          end
        else {| obj_proto := obj_proto o; obj_own := obj_set (obj_own o) k v |}
    end
  else {| obj_proto := obj_proto o; obj_own := obj_set (obj_own o) k v |}.

(** The double quote character, as a string. *)
Definition dq : string :=
  String (Ascii false true false false false true false false) EmptyString.

(** [parts.join(sep)] *)
Definition join (sep : string) (parts : list string) : string :=
  String.concat sep parts.

Definition backtick : ascii := Ascii false false false false false true true false.

(** [s.replace(/`[^`]+`/g, '??')]: every backtick, one or more characters
    other than a backtick, backtick becomes [??]. [pending] holds what was
    read since an opening backtick, [None] outside of one. *)
Fixpoint replace_quoted (pending : option string) (s : string) : string :=
  match s, pending with
  | EmptyString, None => EmptyString
  | EmptyString, Some buf => String backtick buf
  | String c s', None =>
      if Ascii.eqb c backtick then replace_quoted (Some EmptyString) s'
      else String c (replace_quoted None s')
  | String c s', Some buf =>
      if Ascii.eqb c backtick then
        match buf with
        | EmptyString => String backtick (replace_quoted (Some EmptyString) s')
        | _ => "??" ++ replace_quoted None s'
        end
      else replace_quoted (Some (buf ++ String c EmptyString)) s'
  end.

End JS.
Export JS.

(* ===================================================================== *)
(** * The options object                                                  *)
(* ===================================================================== *)

Module Opt.

(** [schema]: [columnNames] is an object, so it can carry any key. *)
Record Schema := {
  tableName : string;
  columnNames : list (string * string) }.

(** [MySQLStoreOptions] *)
Record t := {
  clearExpired : bool;
  checkExpirationInterval : Z;
  expiration : Z;
  createDatabaseTable : bool;
  endConnectionOnClose : bool;
  disableTouch : bool;
  charset : string;
  schema : Schema }.

(** The object a caller hands to the constructor or to the setter: a key
    can be left out, at each of the three levels. *)
Record UserSchema := {
  u_tableName : option string;
  u_columnNames : option (list (string * string)) }.

Record user := {
  u_clearExpired : option bool;
  u_checkExpirationInterval : option Z;
  u_expiration : option Z;
  u_createDatabaseTable : option bool;
  u_endConnectionOnClose : option bool;
  u_disableTouch : option bool;
  u_charset : option string;
  u_schema : option UserSchema }.

(** [defaultOptions], lines 32-54. *)
Definition defaultOptions : t := {|
  clearExpired := true;
  checkExpirationInterval := 900000;
  expiration := 86400000 * 60;
  createDatabaseTable := true;
  endConnectionOnClose := true;
  disableTouch := false;
  charset := "utf8mb4_bin";
  schema := {|
    tableName := "sessions";
    columnNames :=
      [("session_id", "session_id"); ("expires", "expires"); ("data", "data")] |} |}.

(** [options?.schema?.columnNames], an absent level reading as no keys. *)
Definition user_columnNames (options : user) : list (string * string) :=
  default [] (u_schema options ≫= u_columnNames).

(** Lines 141-154: the three assignments of the setter, which nothing can
    observe one by one. [{...defaultOptions, ...options}], then
    [endConnectionOnClose] overwritten with [!this.connection], then
    [schema] and [schema.columnNames] rebuilt by their own spreads. *)
Definition merge (has_connection : bool) (options : user) : t := {|
  clearExpired := default (clearExpired defaultOptions) (u_clearExpired options);
  checkExpirationInterval :=
    default (checkExpirationInterval defaultOptions) (u_checkExpirationInterval options);
  expiration := default (expiration defaultOptions) (u_expiration options);
  createDatabaseTable :=
    default (createDatabaseTable defaultOptions) (u_createDatabaseTable options);
  endConnectionOnClose := negb has_connection;
  disableTouch := default (disableTouch defaultOptions) (u_disableTouch options);
  charset := default (charset defaultOptions) (u_charset options);
  schema := {|
    tableName :=
      default (tableName (schema defaultOptions)) (u_schema options ≫= u_tableName);
    columnNames :=
      spread (columnNames (schema defaultOptions)) (user_columnNames options) |} |}.

(** [options.schema.columnNames.k] as a query parameter. *)
Definition column (o : t) (k : string) : value :=
  match assoc k (columnNames (schema o)) with
  | Some name => VStr name
  | None => VUndefined
  end.

End Opt.

(* ===================================================================== *)
(** * The store                                                           *)
(* ===================================================================== *)

Module MySQLStore.

Inductive lifecycle :=
| UNINITIALIZED | INITIALIZING | INITIALIZED | CLOSING | CLOSED.

(** What the store uses of the mysql2 [Connection | Pool] it is given:
    [query(sql, params)] and [end()], each answering with a value or
    rejecting with an error, over a connection state of its own. *)
Class Connection (C : Type) := {
  conn_query : string -> list value -> C -> (error + value) * C;
  conn_end : C -> option error * C }.

Inductive log_entry :=
| info (msg : string)
| info2 (msg arg : string)
| error_msg (msg : string)
| error_val (e : error).

(** An argument of a completion callback. *)
Inductive arg := ANull | AErr (e : error) | AVal (v : value).

Inductive settlement := Resolved | Rejected (e : error).

(** What the store does to its environment, in the order it does it. *)
Inductive event :=
| Log (e : log_entry)
| Sent (sql : string) (params : list value)
| Ended
| Call (args : list arg)
| Settle (p : nat) (s : settlement)
| Unhandled (e : error).

Definition calls (tr : list event) : list (list arg) :=
  omap (fun e => match e with Call args => Some args | _ => None end) tr.

Definition statements (tr : list event) : list (string * list value) :=
  omap (fun e => match e with Sent sql ps => Some (sql, ps) | _ => None end) tr.

Definition settlements (tr : list event) : list (nat * settlement) :=
  omap (fun e => match e with Settle p s => Some (p, s) | _ => None end) tr.

Definition ends (tr : list event) : nat :=
  List.length
    (List.filter (fun e => match e with Ended => true | _ => false end) tr).

Section Store.
Context {C : Type} `{Connection C} `{Runtime}.

(** The fields of the object ([state] to [expirationInterval]) and the
    environment it runs in: [now] is what [Date.now()] answers, [timers]
    the live [setInterval] handles with the arguments they were armed
    with, [init_pending] the promise chain the constructor queued. *)
Record World := {
  state : lifecycle;
  connection : option C;
  options : Opt.t;
  onReadyPromises : list nat;
  expirationInterval : option nat;
  now : Z;
  timers : list (nat * (Z * Opt.t));
  timer_seq : nat;
  init_pending : bool;
  trace : list event }.

Definition with_state (x : lifecycle) (w : World) : World :=
  {| state := x; connection := connection w; options := options w;
     onReadyPromises := onReadyPromises w;
     expirationInterval := expirationInterval w; now := now w;
     timers := timers w; timer_seq := timer_seq w;
     init_pending := init_pending w; trace := trace w |}.

Definition with_connection (x : option C) (w : World) : World :=
  {| state := state w; connection := x; options := options w;
     onReadyPromises := onReadyPromises w;
     expirationInterval := expirationInterval w; now := now w;
     timers := timers w; timer_seq := timer_seq w;
     init_pending := init_pending w; trace := trace w |}.

Definition with_options (x : Opt.t) (w : World) : World :=
  {| state := state w; connection := connection w; options := x;
     onReadyPromises := onReadyPromises w;
     expirationInterval := expirationInterval w; now := now w;
     timers := timers w; timer_seq := timer_seq w;
     init_pending := init_pending w; trace := trace w |}.

Definition with_onReadyPromises (x : list nat) (w : World) : World :=
  {| state := state w; connection := connection w; options := options w;
     onReadyPromises := x;
     expirationInterval := expirationInterval w; now := now w;
     timers := timers w; timer_seq := timer_seq w;
     init_pending := init_pending w; trace := trace w |}.

Definition with_expirationInterval (x : option nat) (w : World) : World :=
  {| state := state w; connection := connection w; options := options w;
     onReadyPromises := onReadyPromises w;
     expirationInterval := x; now := now w;
     timers := timers w; timer_seq := timer_seq w;
     init_pending := init_pending w; trace := trace w |}.

Definition with_timers (x : list (nat * (Z * Opt.t))) (n : nat) (w : World)
  : World :=
  {| state := state w; connection := connection w; options := options w;
     onReadyPromises := onReadyPromises w;
     expirationInterval := expirationInterval w; now := now w;
     timers := x; timer_seq := n;
     init_pending := init_pending w; trace := trace w |}.

Definition with_init_pending (x : bool) (w : World) : World :=
  {| state := state w; connection := connection w; options := options w;
     onReadyPromises := onReadyPromises w;
     expirationInterval := expirationInterval w; now := now w;
     timers := timers w; timer_seq := timer_seq w;
     init_pending := x; trace := trace w |}.

Definition with_trace (x : list event) (w : World) : World :=
  {| state := state w; connection := connection w; options := options w;
     onReadyPromises := onReadyPromises w;
     expirationInterval := expirationInterval w; now := now w;
     timers := timers w; timer_seq := timer_seq w;
     init_pending := init_pending w; trace := x |}.

(** ** The monad: a method changes the world and returns or throws. What
    it did before it threw stays done. *)

Inductive outcome (A : Type) :=
| Ok (a : A)
| Throw (e : error).
Arguments Ok {A} a.
Arguments Throw {A} e.

Definition M (A : Type) : Type := World -> outcome A * World.

Definition ret {A} (a : A) : M A := fun w => (Ok a, w).

Definition bind {A B} (m : M A) (k : A -> M B) : M B :=
  fun w =>
    match m w with
    | (Ok a, w') => k a w'
    | (Throw e, w') => (Throw e, w')
    end.

Definition throw {A} (e : error) : M A := fun w => (Throw e, w).

(** [try { m } catch (error) { handler }] *)
Definition try_catch {A} (m : M A) (handler : error -> M A) : M A :=
  fun w =>
    match m w with
    | (Ok a, w') => (Ok a, w')
    | (Throw e, w') => handler e w'
    end.

(** [m.finally(f)] *)
Definition finally {A} (m : M A) (f : M unit) : M A :=
  fun w =>
    match m w with
    | (r, w') =>
        match f w' with
        | (Ok _, w'') => (r, w'')
        | (Throw e, w'') => (Throw e, w'')
        end
    end.

(** A call to an [async] function that is not awaited: it runs, and a
    rejection has nobody to go to. *)
Definition emit_in (e : event) (w : World) : World :=
  with_trace (trace w ++ [e]) w.

Definition spawn {A} (m : M A) : M unit :=
  fun w =>
    match m w with
    | (Ok _, w') => (Ok tt, w')
    | (Throw e, w') => (Ok tt, emit_in (Unhandled e) w')
    end.

Definition lift {A} (r : error + A) : M A :=
  match r with
  | inl e => throw e
  | inr a => ret a
  end.

Definition gets {A} (f : World -> A) : M A := fun w => (Ok (f w), w).
Definition modify (f : World -> World) : M unit := fun w => (Ok tt, f w).
Definition emit (e : event) : M unit := modify (emit_in e).

End Store.

Arguments World C : clear implicits.
Arguments M C A : clear implicits.
Arguments Ok {A} a.
Arguments Throw {A} e.

Declare Scope js_scope.
Delimit Scope js_scope with js.
Notation "x <- m ;; k" := (bind m (fun x => k))
  (at level 100, m at next level, right associativity) : js_scope.
Notation "m ;; k" := (bind m (fun _ => k))
  (at level 100, right associativity) : js_scope.
Local Open Scope js_scope.

Section Methods.
Context {C : Type} `{Connection C} `{Runtime}.

Abbreviation M := (M C).

(** ** The logger, the callback and the connection *)

Definition logger_info (msg : string) : M unit := emit (Log (info msg)).
Definition logger_info2 (msg a : string) : M unit := emit (Log (info2 msg a)).
Definition logger_error (msg : string) : M unit := emit (Log (error_msg msg)).
Definition logger_error_val (e : error) : M unit := emit (Log (error_val e)).

(** [callback(args)]: the callback records its arguments and returns. *)
Definition callback (args : list arg) : M unit := emit (Call args).

(** [this.connection.query(sql, params)], awaited. *)
Definition connection_query (sql : string) (params : list value) : M value :=
  fun w =>
    match connection w with
    | None => (Throw (TypeError "Cannot read properties of undefined"), w)
    | Some c =>
        let (r, c') := conn_query sql params c in
        let w' := emit_in (Sent sql params) (with_connection (Some c') w) in
        match r with
        | inr v => (Ok v, w')
        | inl e => (Throw e, w')
        end
    end.

(** [this.connection.end()] *)
Definition connection_end : M unit :=
  fun w =>
    match connection w with
    | None => (Throw (TypeError "Cannot read properties of undefined"), w)
    | Some c =>
        let (r, c') := conn_end c in
        let w' := emit_in Ended (with_connection (Some c') w) in
        match r with
        | None => (Ok tt, w')
        | Some e => (Throw e, w')
        end
    end.

(** [Math.round(Date.now() / 1000)] *)
Definition now_seconds : M Z := gets (fun w => round_div1000 (now w)).

Fixpoint forEach {A} (l : list A) (f : A -> M unit) : M unit :=
  match l with
  | [] => ret tt
  | x :: l' => f x ;; forEach l' f
  end.

(** ** Lines 425-432 *)
Definition query (sql : string) (params : list value) : M (option value) :=
  try_catch
    (result <- connection_query sql params ;;
     ret (Some result))
    (fun error =>
       logger_error "Failed to query database." ;;
       ret None).

(** ** Lines 117-125 *)
Definition resolveReadyPromises : M unit :=
  ps <- gets onReadyPromises ;;
  forEach ps (fun promise => emit (Settle promise Resolved)) ;;
  modify (with_onReadyPromises []).

Definition rejectReadyPromises (error : error) : M unit :=
  ps <- gets onReadyPromises ;;
  forEach ps (fun promise => emit (Settle promise (Rejected error))) ;;
  modify (with_onReadyPromises []).

(** ** Lines 110-115: [promise] names the promise [onReady] returns. *)
Definition onReady (promise : nat) : M unit :=
  st <- gets state ;;
  match st with
  | INITIALIZED => emit (Settle promise Resolved)
  | _ =>
      ps <- gets onReadyPromises ;;
      modify (with_onReadyPromises (ps ++ [promise]))
  end.

(** ** Lines 158-167 *)
Definition unknown_column (userDefinedColumnName : string) : error :=
  Error ("Unknown column specified (" ++ dq ++ userDefinedColumnName ++ dq
         ++ "). Only the following columns are configurable: "
         ++ dq ++ "session_id" ++ dq ++ ", " ++ dq ++ "expires" ++ dq ++ ", "
         ++ dq ++ "data" ++ dq
         ++ ". Please review the documentation to understand how to correctly use this option.").

Definition validateOptions : M unit :=
  options <- gets options ;;
  let allowedColumnNames := keys (Opt.columnNames (Opt.schema Opt.defaultOptions)) in
  let columnNames := keys (Opt.columnNames (Opt.schema options)) in
  forEach columnNames (fun userDefinedColumnName =>
    if negb (includes allowedColumnNames userDefinedColumnName)
    then throw (unknown_column userDefinedColumnName)
    else ret tt).

(** ** Lines 140-156: the setter of [options] *)
Definition set_options (options : Opt.user) : M unit :=
  conn <- gets connection ;;
  modify (with_options (Opt.merge (bool_decide (is_Some conn)) options)) ;;
  validateOptions.

(** ** Lines 169-196 *)
Definition create_table_sql : string :=
  replace_quoted None
    (join " "
       [ "CREATE TABLE IF NOT EXISTS `sessions`";
         "(`session_id` varchar(128) COLLATE utf8mb4_bin NOT NULL,";
         "`expires` int(11) unsigned NOT NULL,";
         "`data` mediumtext COLLATE utf8mb4_bin,";
         "PRIMARY KEY (`session_id`)";
         ") ENGINE=InnoDB DEFAULT CHARSET=utf8mb4 COLLATE=utf8mb4_bin;" ]).

Definition createDatabaseTable : M (option value) :=
  let schema := create_table_sql in
  o <- gets options ;;
  let tableName := Opt.tableName (Opt.schema o) in
  let params :=
    [ VStr tableName;
      Opt.column o "session_id";
      Opt.column o "expires";
      Opt.column o "data";
      Opt.column o "session_id" ] in
  try_catch
    (result <- query schema params ;;
     logger_info "Sessions database table is properly configured" ;;
     ret result)
    (fun error =>
       logger_error "Failed to create or validate sessions database table." ;;
       logger_error_val error ;;
       throw error).

(** ** Lines 198-239 *)
Definition JSON_parse_ (s : string) : M value :=
  match JSON_parse s with
  | Some v => ret v
  | None => throw (SyntaxError "Unexpected token in JSON")
  end.

Definition get (session_id : string) : M unit :=
  logger_info ("Getting session: " ++ session_id) ;;
  o <- gets options ;;
  let sql := "SELECT ?? AS data, ?? as expires FROM ?? WHERE ?? = ?" in
  let params :=
    [ Opt.column o "data";
      Opt.column o "expires";
      VStr (Opt.tableName (Opt.schema o));
      Opt.column o "session_id";
      VStr session_id ] in
  try_catch
    (result <- query sql params ;;
     rows <- lift (destructure_first result) ;;
     if truthy rows then
       logger_info ("Session (" ++ session_id ++ ") not found") ;;
       callback [ANull]
     else
       now <- now_seconds ;;
       row <- lift (index0 rows) ;;
       row_expires <- lift (member row "expires") ;;
       if lt_num row_expires now then
         logger_info ("Session (" ++ session_id ++ ") expired") ;;
         callback [ANull]
       else
         data <- lift (member row "data") ;;
         data <- match data with
                 | VStr text =>
                     try_catch (JSON_parse_ text)
                       (fun error =>
                          logger_error ("Failed to parse data for session (" ++ session_id ++ ")") ;;
                          logger_error_val error ;;
                          throw error)
                 | _ => ret data
                 end ;;
         callback [ANull; AVal data])
    (fun error =>
       logger_error ("Failed to get session: " ++ session_id) ;;
       logger_error_val error ;;
       callback [AErr error]).

(** ** Lines 243-258 of [set], and again 288-303 of [touch]: the expiry,
    in whole seconds, as the parameter the statement is given. *)
Definition payload_expires (data : value) : M value :=
  cookie <- lift (member data "cookie") ;;
  expires <-
    (if truthy cookie then
       cookie_expires <- lift (member cookie "expires") ;;
       if truthy cookie_expires then ret cookie_expires
       else
         cookie__expires <- lift (member cookie "_expires") ;;
         if truthy cookie__expires then ret cookie__expires
         else ret VUndefined
     else ret VUndefined) ;;
  expires <-
    (if negb (truthy expires) then
       o <- gets options ;;
       t <- gets now ;;
       ret (VNum (t + Opt.expiration o))
     else ret expires) ;;
  let expires :=
    match expires with
    | VDate t => VDate t
    | _ => VDate (new_Date_time expires)
    end in
  ret (match expires with
       | VDate (Some ms) => VNum (round_div1000 ms)
       | _ => VNaN
       end).

(** ** Lines 241-283 *)
Definition set (session_id : string) (data : value) : M unit :=
  logger_info ("Setting session: " ++ session_id) ;;
  expires <- payload_expires data ;;
  let data := VStr (JSON_stringify data) in
  o <- gets options ;;
  let sql := "INSERT INTO ?? (??, ??, ??) VALUES (?, ?, ?) ON DUPLICATE KEY UPDATE ?? = VALUES(??), ?? = VALUES(??)" in
  let params :=
    [ VStr (Opt.tableName (Opt.schema o));
      Opt.column o "session_id";
      Opt.column o "expires";
      Opt.column o "data";
      VStr session_id;
      expires;
      data;
      Opt.column o "expires";
      Opt.column o "expires";
      Opt.column o "data";
      Opt.column o "data" ] in
  try_catch
    (query sql params ;;
     callback [])
    (fun error =>
       logger_error "Failed to insert session data." ;;
       logger_error_val error ;;
       callback [AErr error]).

(** ** Lines 285-321 *)
Definition touch (session_id : string) (data : value) : M unit :=
  o <- gets options ;;
  if Opt.disableTouch o then ret tt
  else
    logger_info ("Touching session: " ++ session_id) ;;
    expires <- payload_expires data ;;
    let sql := "UPDATE ?? SET ?? = ? WHERE ?? = ?" in
    let params :=
      [ VStr (Opt.tableName (Opt.schema o));
        Opt.column o "expires";
        expires;
        Opt.column o "session_id";
        VStr session_id ] in
    try_catch
      (query sql params ;;
       callback [])
      (fun error =>
         logger_error ("Failed to touch session (" ++ session_id ++ ")") ;;
         logger_error_val error ;;
         callback [AErr error]).

(** ** Lines 323-342: [has_callback] is [typeof callback === 'function'];
    the boolean the [try] statement yields tells whether the method has
    returned from inside it. *)
Definition destroy (session_id : string) (has_callback : bool) : M unit :=
  returned <-
    try_catch
      (logger_info ("Destroying session: " ++ session_id) ;;
       o <- gets options ;;
       let sql := "DELETE FROM ?? WHERE ?? = ?" in
       let params :=
         [ VStr (Opt.tableName (Opt.schema o));
           Opt.column o "session_id";
           VStr session_id ] in
       query sql params ;;
       ret false)
      (fun error =>
         logger_error ("Failed to destroy session (" ++ session_id ++ ")") ;;
         logger_error_val error ;;
         if has_callback then callback [AErr error] ;; ret true
         else ret false) ;;
  if (returned : bool) then ret tt
  else
    logger_info ("Destroyed session: " ++ session_id) ;;
    if has_callback then callback [] else ret tt.

(** ** Lines 344-361 *)
Definition length : M unit :=
  logger_info "Getting number of sessions" ;;
  o <- gets options ;;
  t <- now_seconds ;;
  let sql := "SELECT COUNT(*) FROM ?? WHERE ?? >= ?" in
  let params :=
    [ VStr (Opt.tableName (Opt.schema o));
      Opt.column o "expires";
      VNum t ] in
  try_catch
    (result <- query sql params ;;
     rows <- lift (destructure_first result) ;;
     row <- lift (index0 rows) ;;
     count <- (if truthy row then lift (member row "COUNT(*)") else ret row) ;;
     callback [ANull; AVal (if truthy count then count else VNum 0)])
    (fun error =>
       logger_error "Failed to get number of sessions." ;;
       logger_error_val error ;;
       callback [AErr error]).

(** ** Lines 363-390. [all_row] is the function handed to [forEach]: it
    is given the [sessions] object so far and returns it, updated. The
    callback is handed the object as a value, by its own properties. *)
Definition all_row (sessions : object) (row : value) : M object :=
  session_id <- lift (member row "session_id") ;;
  data <- lift (member row "data") ;;
  parsed <-
    match data with
    | VStr text =>
        try_catch (v <- JSON_parse_ text ;; ret (Some v))
          (fun error =>
             logger_error ("Failed to parse data for session (" ++ ToPropertyKey session_id ++ ")") ;;
             logger_error_val error ;;
             ret None)
    | _ => ret (Some data)
    end ;;
  match parsed with
  | Some data => ret (assign sessions (ToPropertyKey session_id) data)
  | None => ret sessions
  end.

Fixpoint all_rows (sessions : object) (rows : list value) : M object :=
  match rows with
  | [] => ret sessions
  | row :: rows' =>
      sessions' <- all_row sessions row ;;
      all_rows sessions' rows'
  end.

Definition all : M unit :=
  o <- gets options ;;
  t <- now_seconds ;;
  let sql := "SELECT * FROM ?? WHERE ?? >= ?" in
  let params :=
    [ VStr (Opt.tableName (Opt.schema o));
      Opt.column o "expires";
      VNum t ] in
  try_catch
    (result <- query sql params ;;
     rows <- lift (destructure_first result) ;;
     sessions <-
       match rows with
       | VArr items => all_rows empty_object items
       | VUndefined | VNull => throw (TypeError "Cannot read properties of undefined")
       | _ => throw (TypeError "rows.forEach is not a function")
       end ;;
     callback [ANull; AVal (VObj (obj_own sessions))])
    (fun error => callback [AErr error]).

(** ** Lines 392-403: the statement is sent and not awaited. *)
Definition clear (has_callback : bool) : M unit :=
  try_catch
    (logger_info "Clearing all sessions" ;;
     o <- gets options ;;
     let sql := "DELETE FROM ??" in
     let params := [ VStr (Opt.tableName (Opt.schema o)) ] in
     spawn (query sql params))
    (fun error =>
       if has_callback then callback [AErr error] else ret tt).

(** ** Lines 405-423: [options] defaults to [this.options]. *)
Definition clearExpiredSessions (given : option Opt.t) : M (option value) :=
  this_options <- gets options ;;
  let options := default this_options given in
  logger_info "Clearing expired sessions" ;;
  t <- now_seconds ;;
  let sql := "DELETE FROM ?? WHERE ?? < ?" in
  let params :=
    [ VStr (Opt.tableName (Opt.schema options));
      Opt.column options "expires";
      VNum t ] in
  try_catch
    (result <- query sql params ;;
     ret result)
    (fun error =>
       logger_error "Failed to clear expired sessions." ;;
       logger_error_val error ;;
       throw error).

(** ** Lines 441-445 *)
Definition clearInterval (handle : option nat) : M unit :=
  match handle with
  | Some h =>
      modify (fun w =>
        with_timers (List.filter (fun tm => negb (Nat.eqb (fst tm) h)) (timers w))
          (timer_seq w) w)
  | None => ret tt
  end.

Definition clearExpirationInterval : M unit :=
  logger_info "Clearing expiration interval" ;;
  handle <- gets expirationInterval ;;
  clearInterval handle ;;
  modify (with_expirationInterval None).

(** ** Lines 434-439: [interval] defaults to the configured one. *)
Definition setInterval (interval : Z) (a : Opt.t) : M nat :=
  h <- gets timer_seq ;;
  modify (fun w => with_timers (timers w ++ [(h, (interval, a))]) (S h) w) ;;
  ret h.

Definition setExpirationInterval (interval : option Z) : M unit :=
  o <- gets options ;;
  let interval := default (Opt.checkExpirationInterval o) interval in
  logger_info2 "Setting expiration interval to" (Number_toString interval ++ "ms") ;;
  clearExpirationInterval ;;
  spawn (clearExpiredSessions None) ;;
  o <- gets options ;;
  h <- setInterval interval o ;;
  modify (with_expirationInterval (Some h)).

(** A timer armed by [setInterval] fires: the sweep runs with the options
    the timer was armed with. *)
Definition interval_fires (h : nat) : M unit :=
  tms <- gets timers ;;
  match List.find (fun tm => Nat.eqb (fst tm) h) tms with
  | Some (_, (_, a)) => spawn (clearExpiredSessions (Some a))
  | None => ret tt
  end.

(** ** Lines 447-458 *)
Definition close : M unit :=
  logger_info "Closing session store" ;;
  clearExpirationInterval ;;
  st <- gets state ;;
  conn <- gets connection ;;
  o <- gets options ;;
  match st, conn with
  | INITIALIZED, Some _ =>
      if Opt.endConnectionOnClose o then
        modify (with_state CLOSING) ;;
        finally connection_end (modify (with_state CLOSED))
      else ret tt
  | _, _ => ret tt
  end.

(** ** Lines 83-108: the constructor. Lines 90-92 cannot run, the
    connection having passed the test of line 86. The promise chain of
    lines 94-107 is queued, and runs as [initialize] once the constructor
    has returned. *)
Definition constructor (options : option Opt.user) (conn : option C) : M unit :=
  modify (with_state INITIALIZING) ;;
  match conn with
  | None => throw (Error "MySQLStore requires a mysql connection")
  | Some _ =>
      modify (with_connection conn) ;;
      match options with
      | Some o => set_options o
      | None => ret tt
      end ;;
      modify (with_onReadyPromises []) ;;
      modify (with_init_pending true)
  end.

Definition initialize : M unit :=
  pending <- gets init_pending ;;
  if (pending : bool) then
    modify (with_init_pending false) ;;
    try_catch
      (o <- gets options ;;
       (if Opt.createDatabaseTable o then createDatabaseTable ;; ret tt
        else ret tt) ;;
       modify (with_state INITIALIZED) ;;
       o <- gets options ;;
       (if Opt.clearExpired o then setExpirationInterval None else ret tt) ;;
       resolveReadyPromises)
      (fun error => rejectReadyPromises error)
  else ret tt.

(** ** Lines 460-466: [result] starts as a promise resolved with
    [undefined]; each factory is chained with [then], so it is called
    with what the one before resolved to, once that one has resolved. *)
Fixpoint promiseAllSeries (promiseFactories : list (value -> M value))
    (result : value) : M value :=
  match promiseFactories with
  | [] => ret result
  | promiseFactory :: rest =>
      next <- promiseFactory result ;;
      promiseAllSeries rest next
  end.

(** The fields of a [MySQLStore] before its constructor runs (lines
    29-81), in an environment where nothing has happened yet. *)
Definition fresh (clock : Z) : World C := {|
  state := UNINITIALIZED;
  connection := None;
  options := Opt.defaultOptions;
  onReadyPromises := [];
  expirationInterval := None;
  now := clock;
  timers := [];
  timer_seq := 0%nat;
  init_pending := false;
  trace := [] |}.

End Methods.

End MySQLStore.

(* ===================================================================== *)
(** * The database                                                        *)
(* ===================================================================== *)

(** A reference semantics of the statements of the store, for the claims
    that speak of rows. The database holds at most one table, with the
    name and the three column names it was created with; a row is keyed
    by its session id and holds its expiry and its text. A statement is
    understood when each identifier it is given names the table or the
    column the store means by it, and is refused otherwise. The width of
    the columns is not modelled. *)
Module RefDB.

Import MySQLStore.

Record table := {
  t_name : string;
  c_session_id : string;
  c_expires : string;
  c_data : string;
  rows : gmap string (Z * string) }.

Definition db := option table.

Definition with_rows (r : gmap string (Z * string)) (t : table) : table :=
  {| t_name := t_name t; c_session_id := c_session_id t;
     c_expires := c_expires t; c_data := c_data t; rows := r |}.

(** What mysql2 resolves to: the rows and the field list of a [SELECT],
    a header for the other statements. *)
Definition result_set (rs : list value) : value := VArr [VArr rs; VArr []].
Definition header (affected : Z) : value :=
  VArr [VObj [("affectedRows", VNum affected)]; VUndefined].

Definition names (v : value) (name : string) : bool :=
  match v with
  | VStr s => String.eqb s name
  | _ => false
  end.

(** The rows a [WHERE] clause on the expiry keeps. *)
Definition live (n : Z) (r : gmap string (Z * string)) : gmap string (Z * string) :=
  filter (fun kv : string * (Z * string) => n <= kv.2.1) r.

(** A row as [SELECT *] returns it. *)
Definition row_object (t : table) (kv : string * (Z * string)) : value :=
  VObj [ (c_session_id t, VStr kv.1);
         (c_expires t, VNum kv.2.1);
         (c_data t, VStr kv.2.2) ].

Definition refused : error := DriverError "ER_BAD_FIELD_ERROR".
Definition no_table : error := DriverError "ER_NO_SUCH_TABLE".
Definition not_sql : error := DriverError "ER_PARSE_ERROR".

Definition create (params : list value) (d : db) : (error + value) * db :=
  match params, d with
  | [VStr tn; VStr c1; VStr c2; VStr c3; VStr pk], None =>
      if negb (String.eqb c1 c2) && negb (String.eqb c1 c3)
         && negb (String.eqb c2 c3) && String.eqb pk c1
      then (inr (header 0),
            Some {| t_name := tn; c_session_id := c1; c_expires := c2;
                    c_data := c3; rows := ∅ |})
      else (inl refused, d)
  | [VStr tn; _; _; _; _], Some t =>
      if String.eqb tn (t_name t) then (inr (header 0), d)
      else (inl refused, d)
  | _, _ => (inl refused, d)
  end.

(** A statement on the table [tn], once the identifiers [ids] have been
    checked against the columns they are meant to name. *)
Definition on_table (tn : value) (ids : list (value * (table -> string)))
    (d : db) (k : table -> (error + value) * table) : (error + value) * db :=
  match d with
  | Some t =>
      if names tn (t_name t) then
        if forallb (fun id => names id.1 (id.2 t)) ids then
          let (r, t') := k t in (r, Some t')
        else (inl refused, d)
      else (inl no_table, d)
  | None => (inl no_table, d)
  end.

Definition run (sql : string) (params : list value) (d : db)
  : (error + value) * db :=
  if String.eqb sql create_table_sql then create params d
  else if String.eqb sql "SELECT ?? AS data, ?? as expires FROM ?? WHERE ?? = ?" then
    match params with
    | [cd; ce; tn; ci; VStr id] =>
        on_table tn [(cd, c_data); (ce, c_expires); (ci, c_session_id)] d
          (fun t =>
             match rows t !! id with
             | Some (e, text) =>
                 (inr (result_set [VObj [("data", VStr text); ("expires", VNum e)]]), t)
             | None => (inr (result_set []), t)
             end)
    | _ => (inl refused, d)
    end
  else if String.eqb sql "INSERT INTO ?? (??, ??, ??) VALUES (?, ?, ?) ON DUPLICATE KEY UPDATE ?? = VALUES(??), ?? = VALUES(??)" then
    match params with
    | [tn; ci; ce; cd; VStr id; VNum e; VStr text; ce1; ce2; cd1; cd2] =>
        on_table tn
          [(ci, c_session_id); (ce, c_expires); (cd, c_data);
           (ce1, c_expires); (ce2, c_expires); (cd1, c_data); (cd2, c_data)] d
          (fun t => (inr (header 1), with_rows (<[id := (e, text)]> (rows t)) t))
    | _ => (inl refused, d)
    end
  else if String.eqb sql "UPDATE ?? SET ?? = ? WHERE ?? = ?" then
    match params with
    | [tn; ce; VNum e; ci; VStr id] =>
        on_table tn [(ce, c_expires); (ci, c_session_id)] d
          (fun t =>
             match rows t !! id with
             | Some (_, text) =>
                 (inr (header 1), with_rows (<[id := (e, text)]> (rows t)) t)
             | None => (inr (header 0), t)
             end)
    | _ => (inl refused, d)
    end
  else if String.eqb sql "DELETE FROM ?? WHERE ?? = ?" then
    match params with
    | [tn; ci; VStr id] =>
        on_table tn [(ci, c_session_id)] d
          (fun t => (inr (header 1), with_rows (delete id (rows t)) t))
    | _ => (inl refused, d)
    end
  else if String.eqb sql "SELECT COUNT(*) FROM ?? WHERE ?? >= ?" then
    match params with
    | [tn; ce; VNum n] =>
        on_table tn [(ce, c_expires)] d
          (fun t =>
             (inr (result_set
                     [VObj [("COUNT(*)", VNum (Z.of_nat (size (live n (rows t)))))]]),
              t))
    | _ => (inl refused, d)
    end
  else if String.eqb sql "SELECT * FROM ?? WHERE ?? >= ?" then
    match params with
    | [tn; ce; VNum n] =>
        on_table tn [(ce, c_expires)] d
          (fun t =>
             (inr (result_set (row_object t <$> map_to_list (live n (rows t)))), t))
    | _ => (inl refused, d)
    end
  else if String.eqb sql "DELETE FROM ??" then
    match params with
    | [tn] => on_table tn [] d (fun t => (inr (header 0), with_rows ∅ t))
    | _ => (inl refused, d)
    end
  else if String.eqb sql "DELETE FROM ?? WHERE ?? < ?" then
    match params with
    | [tn; ce; VNum n] =>
        on_table tn [(ce, c_expires)] d
          (fun t => (inr (header 0), with_rows (live n (rows t)) t))
    | _ => (inl refused, d)
    end
  else (inl not_sql, d).

#[export] Instance mysql : Connection db := {|
  conn_query := run;
  conn_end := fun d => (None, d) |}.

(** The table the store creates under the options [o]. *)
Definition table_of (o : Opt.t) (r : gmap string (Z * string)) : option table :=
  match Opt.column o "session_id", Opt.column o "expires", Opt.column o "data" with
  | VStr ci, VStr ce, VStr cd =>
      Some {| t_name := Opt.tableName (Opt.schema o); c_session_id := ci;
              c_expires := ce; c_data := cd; rows := r |}
  | _, _, _ => None
  end.

End RefDB.

(** A connection that cannot reach its server: its state is the error it
    rejects every request with. *)
Module Unreachable.

Import MySQLStore.

#[export] Instance down : Connection error := {|
  conn_query := fun _ _ e => (inl e, e);
  conn_end := fun e => (Some e, e) |}.

End Unreachable.

(** The text of [{ cookie: { expires: new Date(7200000) } }]. *)
Definition dated_json : string :=
  "{" ++ dq ++ "cookie" ++ dq ++ ":{" ++ dq ++ "expires" ++ dq ++ ":"
  ++ dq ++ "1970-01-01T02:00:00.000Z" ++ dq ++ "}}".

Definition is_dated (v : value) : bool :=
  match v with
  | VObj [(k, VObj [(k', VDate (Some t))])] =>
      String.eqb k "cookie" && String.eqb k' "expires" && (t =? 7200000)
  | _ => false
  end.

(** A runtime for the examples. It serialises and parses the two
    payloads the examples store, the empty object and an object whose
    cookie expires at 02:00:00 on 1 January 1970, as the engine does; no
    example reaches the built-ins with another input. *)
Definition sample_runtime : Runtime := {|
  JSON_stringify := fun v =>
    match v with
    | VObj [] => "{}"
    | _ => if is_dated v then dated_json else "null"
    end;
  JSON_parse := fun s =>
    if String.eqb s "{}" then Some (VObj [])
    else if String.eqb s dated_json then
      Some (VObj [("cookie", VObj [("expires", VStr "1970-01-01T02:00:00.000Z")])])
    else None;
  Date_parse := fun s =>
    if String.eqb s "1970-01-01T02:00:00.000Z" then Some 7200000 else None;
  ToString := fun _ => "[object Object]";
  StringToNumber := fun _ => None |}.

(* ===================================================================== *)
(** * What the properties speak of                                        *)
(* ===================================================================== *)

Import MySQLStore.
Local Open Scope js_scope.
Local Open Scope list_scope.

Section Vocabulary.
Context {C : Type} `{Connection C} `{Runtime}.

(** A key of [columnNames] that the store does not know. *)
Definition unknown_key (k : string) : Prop :=
  k <> "session_id" /\ k <> "expires" /\ k <> "data".

(** The options in force pass the check of [validateOptions]. *)
Definition valid (o : Opt.t) : Prop :=
  forall k, In k (keys (Opt.columnNames (Opt.schema o))) -> ~ unknown_key k.

(** [undefined] and [null]: the values no property can be read of. *)
Definition nullish (v : value) : bool :=
  match v with
  | VUndefined | VNull => true
  | _ => false
  end.

(** [v.k], where reading it does not throw. *)
Definition field (v : value) (k : string) : value :=
  match member v k with
  | inr x => x
  | inl _ => VUndefined
  end.

(** The time a value stands for, in milliseconds: that of a [Date], or of
    the [Date] made from it. *)
Definition time_of (v : value) : option Z :=
  match v with
  | VDate t => t
  | _ => new_Date_time v
  end.

(** The expiry as the specification words it: the [expires] field of the
    cookie if it is set, else its [_expires] field if that is set, else
    the current time plus the configured expiration; in whole seconds.
    A field is set when it holds a value that counts as true. *)
Definition spec_expiry (data : value) (now expiration : Z) : value :=
  let cookie := field data "cookie" in
  let chosen :=
    if truthy (field cookie "expires") then field cookie "expires"
    else if truthy (field cookie "_expires") then field cookie "_expires"
    else VNum (now + expiration) in
  match time_of chosen with
  | Some ms => VNum (round_div1000 ms)
  | None => VNaN
  end.

(** What a callback can be handed: nothing or [null] on success, [null]
    and a result, or an error. *)
Definition reply (args : list arg) : Prop :=
  args = [] \/ args = [ANull] \/ (exists v, args = [ANull; AVal v])
  \/ (exists e, args = [AErr e]).

(** [m] calls nothing back. *)
Definition quiet {A} (m : M C A) : Prop :=
  forall w, calls (trace (m w).2) = calls (trace w).

(** [m] returns. *)
Definition returns {A} (m : M C A) : Prop :=
  forall w, exists a, (m w).1 = Ok a.

(** From [w], [m] returns after one call of the callback, with arguments
    of the shape [P]. *)
Definition calls_once {A} (P : list arg -> Prop) (m : M C A) (w : World C)
  : Prop :=
  exists a args, (m w).1 = Ok a /\ P args /\
    calls (trace (m w).2) = calls (trace w) ++ [args].

(** The same, from every world. *)
Definition once {A} (P : list arg -> Prop) (m : M C A) : Prop :=
  forall w, calls_once P m w.

(** [m] returns after one call of the callback, or throws before any. *)
Definition once_unless_thrown {A} (P : list arg -> Prop) (m : M C A) : Prop :=
  forall w,
    match (m w).1 with
    | Ok _ => exists args, P args /\
                calls (trace (m w).2) = calls (trace w) ++ [args]
    | Throw _ => calls (trace (m w).2) = calls (trace w)
    end.

(** What [get] hands over in fact: [null] alone, or an error. *)
Definition no_data (args : list arg) : Prop :=
  args = [ANull] \/ (exists e, args = [AErr e]).

(** The world the constructor leaves when it is given a connection and
    no options. *)
Definition built (c : C) (clock : Z) : World C :=
  with_init_pending true
    (with_onReadyPromises []
       (with_connection (Some c) (with_state INITIALIZING (fresh clock)))).

(** What a statement leaves alone, whatever the connection answers. *)
Definition kept (w w' : World C) : Prop :=
  state w' = state w /\ options w' = options w /\
  onReadyPromises w' = onReadyPromises w /\
  (is_Some (connection w) -> is_Some (connection w')) /\
  settlements (trace w') = settlements (trace w) /\
  ends (trace w') = ends (trace w).

(** The rejections nobody handles. *)
Definition rejections (tr : list event) : list error :=
  omap (fun e => match e with Unhandled x => Some x | _ => None end) tr.

(** A step that only talked to the connection and to the logger: the
    fields of the object are as they were, but for the connection, which
    is there after if it was there before; nothing was called back,
    settled, ended or rejected. *)
Definition io_only (w w' : World C) : Prop :=
  state w' = state w /\ options w' = options w /\
  onReadyPromises w' = onReadyPromises w /\
  expirationInterval w' = expirationInterval w /\
  now w' = now w /\ timers w' = timers w /\ timer_seq w' = timer_seq w /\
  init_pending w' = init_pending w /\
  (is_Some (connection w) <-> is_Some (connection w')) /\
  calls (trace w') = calls (trace w) /\
  settlements (trace w') = settlements (trace w) /\
  ends (trace w') = ends (trace w) /\
  rejections (trace w') = rejections (trace w).

(** The store has armed no timer but the one it holds the handle of. *)
Definition armed_once (w : World C) : Prop :=
  match expirationInterval w with
  | Some h => exists interval a, timers w = [(h, (interval, a))]
  | None => timers w = []
  end.

(** The same, but for the timer: the handle the store holds and the
    timers that are armed may have changed. *)
Definition rest_kept (w w' : World C) : Prop :=
  state w' = state w /\ options w' = options w /\
  onReadyPromises w' = onReadyPromises w /\
  now w' = now w /\ init_pending w' = init_pending w /\
  (is_Some (connection w) <-> is_Some (connection w')) /\
  calls (trace w') = calls (trace w) /\
  settlements (trace w') = settlements (trace w) /\
  ends (trace w') = ends (trace w) /\
  rejections (trace w') = rejections (trace w).

(** [s] holds a backtick. *)
Fixpoint has_backtick (s : string) : bool :=
  match s with
  | EmptyString => false
  | String c s' => Ascii.eqb c backtick || has_backtick s'
  end.

End Vocabulary.

Section StoredRows.
Context `{Runtime}.
Import RefDB.

(** The table is the one the store means under the options [o]. *)
Definition serves (o : Opt.t) (t : table) : Prop :=
  table_of o (rows t) = Some t.

(** The object [all] builds from rows that parse or not. *)
Definition collect (sessions : object)
    (l : list (string * (Z * string))) : object :=
  fold_left
    (fun acc kv =>
       match JSON_parse kv.2.2 with
       | Some v => assign acc kv.1 v
       | None => acc
       end) l sessions.

(** The table has the column names of the defaults. *)
Definition default_columns (t : table) : Prop :=
  c_session_id t = "session_id" /\ c_expires t = "expires" /\ c_data t = "data".

End StoredRows.

(** ** A store to try the properties on *)

(** A table under the default names, holding one session that expires
    at second 5000. *)
Definition sample_table : RefDB.table := {|
  RefDB.t_name := "sessions";
  RefDB.c_session_id := "session_id";
  RefDB.c_expires := "expires";
  RefDB.c_data := "data";
  RefDB.rows := {[ "abc" := (5000, "{}") ]} |}.

(** An initialised store on that table, under the default options, at
    second 1000. *)
Definition sample_world : World RefDB.db :=
  with_connection (Some (Some sample_table))
    (with_state INITIALIZED (fresh 1000000)).

(** A table under the default names with a session on each side of
    second 1000 and one that expires at that second, and an initialised
    store on it at second 1000. *)
Definition boundary_table : RefDB.table := {|
  RefDB.t_name := "sessions";
  RefDB.c_session_id := "session_id";
  RefDB.c_expires := "expires";
  RefDB.c_data := "data";
  RefDB.rows :=
    {[ "old" := (999, "{}"); "edge" := (1000, "{}"); "young" := (1001, "{}") ]} |}.

Definition boundary_world : World RefDB.db :=
  with_connection (Some (Some boundary_table))
    (with_state INITIALIZED (fresh 1000000)).

(** [{ schema: { columnNames: { bogus: 'x' } } }] *)
Definition bogus_options : Opt.user := {|
  Opt.u_clearExpired := None;
  Opt.u_checkExpirationInterval := None;
  Opt.u_expiration := None;
  Opt.u_createDatabaseTable := None;
  Opt.u_endConnectionOnClose := None;
  Opt.u_disableTouch := None;
  Opt.u_charset := None;
  Opt.u_schema :=
    Some {| Opt.u_tableName := None;
            Opt.u_columnNames := Some [("bogus", "x")] |} |}.

(** [{ disableTouch: true }] *)
Definition no_touch_options : Opt.user := {|
  Opt.u_clearExpired := None;
  Opt.u_checkExpirationInterval := None;
  Opt.u_expiration := None;
  Opt.u_createDatabaseTable := None;
  Opt.u_endConnectionOnClose := None;
  Opt.u_disableTouch := Some true;
  Opt.u_charset := None;
  Opt.u_schema := None |}.

(** A payload whose cookie expires at second 7200. *)
Definition dated_payload : value :=
  VObj [("cookie", VObj [("expires", VDate (Some 7200000))])].

(** [{ schema: { columnNames: { session_id: 'sid', expires: 'until' } } }] *)
Definition renamed_options : Opt.user := {|
  Opt.u_clearExpired := None;
  Opt.u_checkExpirationInterval := None;
  Opt.u_expiration := None;
  Opt.u_createDatabaseTable := None;
  Opt.u_endConnectionOnClose := None;
  Opt.u_disableTouch := None;
  Opt.u_charset := None;
  Opt.u_schema :=
    Some {| Opt.u_tableName := None;
            Opt.u_columnNames :=
              Some [("session_id", "sid"); ("expires", "until")] |} |}.

(** The table those options mean, holding the same session. *)
Definition renamed_table : RefDB.table := {|
  RefDB.t_name := "sessions";
  RefDB.c_session_id := "sid";
  RefDB.c_expires := "until";
  RefDB.c_data := "data";
  RefDB.rows := {[ "abc" := (5000, "{}") ]} |}.

(** An initialised store on that table, under those options. *)
Definition renamed_world : World RefDB.db :=
  with_options (Opt.merge true renamed_options)
    (with_connection (Some (Some renamed_table))
       (with_state INITIALIZED (fresh 1000000))).

(** The sample store with a timer armed under the default options, and
    the options renamed since. *)
Definition armed_world : World RefDB.db :=
  with_options (Opt.merge true renamed_options)
    (with_expirationInterval (Some 0%nat)
       (with_timers [(0%nat, (900000, Opt.defaultOptions))] 1 sample_world)).

(** The sample store with an expiration of 9e15 milliseconds. *)
Definition far_world : World RefDB.db :=
  with_options
    {| Opt.clearExpired := true;
       Opt.checkExpirationInterval := 900000;
       Opt.expiration := 9000000000000000;
       Opt.createDatabaseTable := true;
       Opt.endConnectionOnClose := false;
       Opt.disableTouch := false;
       Opt.charset := "utf8mb4_bin";
       Opt.schema := Opt.schema Opt.defaultOptions |}
    sample_world.

(** The sample table with no row, and a store on a database that has no
    table yet. *)
Definition empty_table : RefDB.table := {|
  RefDB.t_name := "sessions";
  RefDB.c_session_id := "session_id";
  RefDB.c_expires := "expires";
  RefDB.c_data := "data";
  RefDB.rows := ∅ |}.

Definition empty_world : World RefDB.db :=
  with_connection (Some None) (fresh 1000000).

(** A store the constructor has just built on the sample table, with two
    callers waiting for it. *)
Definition waiting_world : World RefDB.db :=
  with_onReadyPromises [7%nat; 8%nat] (built (Some sample_table) 1000000).

(** An initialised store whose server is gone. *)
Definition unreachable_world : World error :=
  with_connection (Some (Error "gone"))
    (with_state INITIALIZED (fresh 1000000)).

(* ===================================================================== *)
(** * Properties                                                          *)
(* ===================================================================== *)

(** ** Objects *)

Lemma keys_obj_set_old {V} (o : list (string * V)) k v k' :
  In k' (keys o) -> In k' (keys (obj_set o k v)).
Proof.
  induction o as [|[k0 v0] o IH]; simpl; [tauto|].
  destruct (String.eqb_spec k k0) as [->|Hne]; simpl; tauto.
Qed.

Lemma keys_obj_set_new {V} (o : list (string * V)) k v :
  In k (keys (obj_set o k v)).
Proof.
  induction o as [|[k0 v0] o IH]; simpl; [tauto|].
  destruct (String.eqb_spec k k0) as [->|Hne]; simpl; tauto.
Qed.

Lemma keys_spread {V} (over base : list (string * V)) k :
  In k (keys over) -> In k (keys (spread base over)).
Proof.
  unfold spread. revert base.
  induction over as [|[k0 v0] over IH]; simpl; intros base; [tauto|].
  intros [->|Hin]; [|now apply IH].
  clear IH. generalize (keys_obj_set_new base k v0).
  generalize (obj_set base k v0). clear base.
  induction over as [|[k1 v1] over IH]; simpl; intros base Hk; [exact Hk|].
  apply IH. now apply keys_obj_set_old.
Qed.

Lemma assoc_obj_set_eq {V} (o : list (string * V)) k v :
  assoc k (obj_set o k v) = Some v.
Proof.
  induction o as [|[k0 v0] o IH]; simpl.
  - now rewrite String.eqb_refl.
  - destruct (String.eqb_spec k k0) as [->|Hne]; simpl.
    + now rewrite String.eqb_refl.
    + destruct (String.eqb_spec k k0); [contradiction|exact IH].
Qed.

Lemma assoc_obj_set_ne {V} (o : list (string * V)) k v k' :
  k' <> k -> assoc k' (obj_set o k v) = assoc k' o.
Proof.
  intros Hne.
  induction o as [|[k0 v0] o IH]; simpl.
  - destruct (String.eqb_spec k' k); [contradiction|reflexivity].
  - destruct (String.eqb_spec k k0) as [->|Hk]; simpl.
    + destruct (String.eqb_spec k' k0); [contradiction|reflexivity].
    + now rewrite IH.
Qed.

(** ** The trace *)

Lemma calls_app tr tr' : calls (tr ++ tr') = calls tr ++ calls tr'.
Proof. apply omap_app. Qed.

Lemma statements_app tr tr' :
  statements (tr ++ tr') = statements tr ++ statements tr'.
Proof. apply omap_app. Qed.

Lemma settlements_app tr tr' :
  settlements (tr ++ tr') = settlements tr ++ settlements tr'.
Proof. apply omap_app. Qed.

Lemma ends_app tr tr' : ends (tr ++ tr') = (ends tr + ends tr')%nat.
Proof. unfold ends. now rewrite List.filter_app, List.length_app. Qed.

(** ** The text of the statement that creates the table *)

Lemma replace_quoted_closing (x : string) : forall buf rest,
  has_backtick x = false ->
  (buf ++ x)%string <> EmptyString ->
  replace_quoted (Some buf) (x ++ String backtick rest)
  = ("??" ++ replace_quoted None rest)%string.
Proof.
  induction x as [|c x IH]; intros buf rest Hx Hne.
  - simpl. rewrite ?Ascii.eqb_refl.
    destruct buf; [|reflexivity].
    exfalso. apply Hne. reflexivity.
  - cbn [has_backtick] in Hx. apply orb_false_iff in Hx as [Hc Hx].
    simpl. rewrite Hc.
    apply IH; [exact Hx|].
    intros Hempty. destruct buf; discriminate.
Qed.

(** X1. The replacement that makes placeholders of the quoted names: a
    text with no backtick is left as it is, and a backtick, one or more
    characters that are no backtick, and a backtick become [??], the
    replacement going on after them. *)
Theorem replace_quoted_replaces_names :
  (forall s, has_backtick s = false -> replace_quoted None s = s) /\
  (forall name rest,
      has_backtick name = false -> name <> EmptyString ->
      replace_quoted None (String backtick (name ++ String backtick rest))
      = ("??" ++ replace_quoted None rest)%string) /\
  (forall c rest,
      Ascii.eqb c backtick = false ->
      replace_quoted None (String c rest) = String c (replace_quoted None rest)).
Proof.
  split; [|split].
  - induction s as [|c s IH]; [reflexivity|].
    cbn [has_backtick]. intros Hs. apply orb_false_iff in Hs as [Hc Hs].
    simpl. rewrite Hc. now rewrite IH.
  - intros name rest Hname Hne. simpl.
    rewrite ?Ascii.eqb_refl. now apply replace_quoted_closing.
  - intros c rest Hc. simpl. now rewrite Hc.
Qed.

(** ** Configuration *)

Section Configuration.
Context {C : Type}.

Lemma unknown_key_not_allowed k :
  unknown_key k ->
  includes (keys (Opt.columnNames (Opt.schema Opt.defaultOptions))) k = false.
Proof.
  intros (H1 & H2 & H3). unfold includes. simpl.
  destruct (String.eqb_spec k "session_id"); [contradiction|].
  destruct (String.eqb_spec k "expires"); [contradiction|].
  destruct (String.eqb_spec k "data"); [contradiction|reflexivity].
Qed.

(** The walk of [validateOptions] stops at the first key that is not
    allowed, with the world as it found it. *)
Lemma validate_walk (allowed l : list string) (w : World C) k :
  In k l -> includes allowed k = false ->
  exists k', In k' l /\ includes allowed k' = false /\
    forEach l (fun name =>
      if negb (includes allowed name) then throw (unknown_column name)
      else ret tt) w = (Throw (unknown_column k'), w).
Proof.
  induction l as [|x l IH]; simpl; [tauto|].
  intros Hin Hk. unfold bind.
  destruct (includes allowed x) eqn:Hx; simpl.
  - destruct Hin as [->|Hin]; [congruence|].
    destruct (IH Hin Hk) as (k' & Hin' & Hk' & Heq).
    exists k'. rewrite Heq. tauto.
  - exists x. unfold throw. tauto.
Qed.

Lemma validateOptions_rejects (w : World C) k :
  In k (keys (Opt.columnNames (Opt.schema (options w)))) -> unknown_key k ->
  exists k', validateOptions w = (Throw (unknown_column k'), w).
Proof.
  intros Hin Hk. unfold validateOptions, bind, gets.
  destruct (validate_walk _ _ w k Hin (unknown_key_not_allowed k Hk))
    as (k' & _ & _ & Heq).
  exists k'. exact Heq.
Qed.

Lemma set_options_rejects (w : World C) (u : Opt.user) k :
  In k (keys (Opt.user_columnNames u)) -> unknown_key k ->
  exists k',
    set_options u w =
      (Throw (unknown_column k'),
       with_options (Opt.merge (bool_decide (is_Some (connection w))) u) w).
Proof.
  intros Hin Hk. unfold set_options, bind, gets, modify.
  apply validateOptions_rejects with (k := k); [|exact Hk].
  simpl. now apply keys_spread.
Qed.

(** C6. A configuration whose [schema.columnNames] has a key other than
    [session_id], [expires] and [data] is rejected when it is set: the
    setter throws an [Error] and has sent no statement; so does the
    constructor, which then has not queued the initialisation either,
    so that running the queue sends none. *)
Theorem unknown_column_rejected_before_any_query
    (w : World C) (u : Opt.user) (k : string) (c : C) :
  In k (keys (Opt.user_columnNames u)) ->
  k <> "session_id" -> k <> "expires" -> k <> "data" ->
  (exists msg w',
      set_options u w = (Throw (Error msg), w') /\
      statements (trace w') = statements (trace w)) /\
  (exists msg w',
      constructor (Some u) (Some c) w = (Throw (Error msg), w') /\
      statements (trace w') = statements (trace w) /\
      init_pending w' = init_pending w).
Proof.
  intros Hin H1 H2 H3.
  assert (Hk : unknown_key k) by (unfold unknown_key; tauto).
  split.
  - destruct (set_options_rejects w u k Hin Hk) as (k' & Heq).
    eexists _, _. split; [exact Heq|reflexivity].
  - unfold constructor, bind, modify.
    destruct (set_options_rejects
                (with_connection (Some c) (with_state INITIALIZING w)) u k Hin Hk)
      as (k' & Heq).
    rewrite Heq. eexists _, _. split; [reflexivity|]. split; reflexivity.
Qed.

(** C10. The setter is not atomic: when it throws for an unknown column
    key, the private field already holds the merged configuration with
    that key in it, and the options that were in force, if they were
    valid, are gone. *)
Theorem setter_keeps_rejected_options
    (w : World C) (u : Opt.user) (k : string) :
  In k (keys (Opt.user_columnNames u)) ->
  k <> "session_id" -> k <> "expires" -> k <> "data" ->
  exists e w',
    set_options u w = (Throw e, w') /\
    options w' = Opt.merge (bool_decide (is_Some (connection w))) u /\
    In k (keys (Opt.columnNames (Opt.schema (options w')))) /\
    (valid (options w) -> options w' <> options w).
Proof.
  intros Hin H1 H2 H3.
  assert (Hk : unknown_key k) by (unfold unknown_key; tauto).
  destruct (set_options_rejects w u k Hin Hk) as (k' & Heq).
  eexists _, _. split; [exact Heq|]. simpl.
  assert (Hmerged : In k (keys (spread
            (Opt.columnNames (Opt.schema Opt.defaultOptions))
            (Opt.user_columnNames u)))) by now apply keys_spread.
  split; [reflexivity|]. split; [exact Hmerged|].
  intros Hvalid Hsame. apply (Hvalid k); [|exact Hk].
  rewrite <- Hsame. exact Hmerged.
Qed.

(** ** What the setter accepts, and what the merge keeps *)

Lemma keys_obj_set_inv {V} (o : list (string * V)) k v k' :
  In k' (keys (obj_set o k v)) -> k' = k \/ In k' (keys o).
Proof.
  induction o as [|[k0 v0] o IH]; simpl; [intuition congruence|].
  destruct (String.eqb_spec k k0) as [->|Hne]; simpl; [intuition congruence|].
  intros [->|Hin]; [tauto|]. destruct (IH Hin); tauto.
Qed.

Lemma keys_spread_inv {V} (over base : list (string * V)) k :
  In k (keys (spread base over)) -> In k (keys base) \/ In k (keys over).
Proof.
  unfold spread. revert base.
  induction over as [|[k0 v0] over IH]; simpl; intros base Hin; [tauto|].
  destruct (IH _ Hin) as [Hb|Ho]; [|tauto].
  destruct (keys_obj_set_inv _ _ _ _ Hb); auto.
Qed.

Lemma assoc_None {V} (o : list (string * V)) k :
  ~ In k (keys o) -> assoc k o = None.
Proof.
  induction o as [|[k0 v0] o IH]; simpl; [reflexivity|]. intros Hn.
  destruct (String.eqb_spec k k0) as [->|Hne]; [tauto|]. apply IH. tauto.
Qed.

(** A spread over an object whose keys are distinct: a key of the second
    object takes its value there, any other key keeps the value of the
    first. *)
Lemma assoc_spread {V} (over : list (string * V)) :
  List.NoDup (keys over) ->
  forall base k,
    assoc k (spread base over) =
      match assoc k over with
      | Some v => Some v
      | None => assoc k base
      end.
Proof.
  unfold spread.
  induction over as [|[k0 v0] over IH]; intros Hnd base k; [reflexivity|].
  simpl in Hnd. inversion Hnd as [|? ? Hk0 Hnd']; subst.
  cbn [fold_left fst snd assoc]. rewrite (IH Hnd').
  destruct (String.eqb_spec k k0) as [->|Hne].
  - rewrite (assoc_None over k0 Hk0). apply assoc_obj_set_eq.
  - now rewrite (assoc_obj_set_ne base k0 v0 k Hne).
Qed.

Lemma validate_walk_ok (allowed l : list string) (w : World C) :
  (forall k, In k l -> includes allowed k = true) ->
  forEach l (fun name =>
    if negb (includes allowed name) then throw (unknown_column name)
    else ret tt) w = (Ok tt, w).
Proof.
  induction l as [|x l IH]; intros Hall; [reflexivity|].
  cbn [forEach]. unfold bind. rewrite (Hall x) by (now left). simpl.
  apply IH. intros k Hk. apply Hall. now right.
Qed.

Lemma set_options_accepts (w : World C) (u : Opt.user) :
  (forall k, In k (keys (Opt.user_columnNames u)) ->
     k = "session_id" \/ k = "expires" \/ k = "data") ->
  set_options u w =
    (Ok tt,
     with_options (Opt.merge (bool_decide (is_Some (connection w))) u) w).
Proof.
  intros Hknown. unfold set_options, bind, gets, modify, validateOptions.
  cbv beta iota. apply validate_walk_ok. intros k Hk. simpl in Hk.
  apply keys_spread_inv in Hk.
  assert (Hk' : k = "session_id" \/ k = "expires" \/ k = "data").
  { destruct Hk as [Hk|Hk]; [simpl in Hk; intuition congruence|auto]. }
  destruct Hk' as [ -> | [ -> | -> ] ]; reflexivity.
Qed.

(** X2. A configuration whose [schema.columnNames] has no key other than
    [session_id], [expires] and [data] is accepted: the setter returns,
    the options in force are the merged ones, and nothing was sent or
    logged. *)
Theorem setter_accepts_known_columns (w : World C) (u : Opt.user) :
  (forall k, In k (keys (Opt.user_columnNames u)) ->
     k = "session_id" \/ k = "expires" \/ k = "data") ->
  set_options u w =
    (Ok tt,
     with_options (Opt.merge (bool_decide (is_Some (connection w))) u) w).
Proof. apply set_options_accepts. Qed.

(** X3. The merge of [schema.columnNames] is a merge of its own: a column
    name the caller gives replaces the default, and a column name the
    caller leaves out keeps its default, whatever else the caller's
    options hold. The caller's object has each key once. *)
Theorem merge_keeps_unspecified_columns
    (has_connection : bool) (u : Opt.user) (k : string) :
  List.NoDup (keys (Opt.user_columnNames u)) ->
  Opt.column (Opt.merge has_connection u) k =
    match assoc k (Opt.user_columnNames u) with
    | Some name => VStr name
    | None => Opt.column Opt.defaultOptions k
    end.
Proof.
  intros Hnd. unfold Opt.column. cbn [Opt.merge Opt.schema Opt.columnNames].
  rewrite (assoc_spread _ Hnd).
  destruct (assoc k (Opt.user_columnNames u)); reflexivity.
Qed.

(** ** A series of promises *)

(** X4. [promiseAllSeries] runs its factories one after the other, each
    on what the one before resolved to: a series is the series of its
    first factories followed by that of the others; and the first
    factory that rejects ends the series with its error, the factories
    after it not being called. *)
Theorem promiseAllSeries_runs_in_order_and_stops :
  (forall (fs gs : list (value -> M C value)) (start : value) (w : World C),
      promiseAllSeries (fs ++ gs) start w =
        match promiseAllSeries fs start w with
        | (Ok v, w1) => promiseAllSeries gs v w1
        | (Throw e, w1) => (Throw e, w1)
        end) /\
  (forall (fs gs : list (value -> M C value)) f (start v : value) e
          (w w1 w2 : World C),
      promiseAllSeries fs start w = (Ok v, w1) ->
      f v w1 = (Throw e, w2) ->
      promiseAllSeries (fs ++ f :: gs) start w = (Throw e, w2)).
Proof.
  assert (Happ : forall (fs gs : list (value -> M C value)) start (w : World C),
      promiseAllSeries (fs ++ gs) start w =
        match promiseAllSeries fs start w with
        | (Ok v, w1) => promiseAllSeries gs v w1
        | (Throw e, w1) => (Throw e, w1)
        end).
  { induction fs as [|f fs IH]; intros gs start w; [reflexivity|].
    cbn [app promiseAllSeries]. unfold bind.
    destruct (f start w) as [[v|e] w1]; [apply IH|reflexivity]. }
  split; [exact Happ|].
  intros fs gs f start v e w w1 w2 Hfs Hf.
  rewrite Happ, Hfs. cbn [promiseAllSeries]. unfold bind. now rewrite Hf.
Qed.

End Configuration.

(** ** Completion callbacks *)

Section Completion.
Context {C : Type} `{Connection C} `{Runtime}.

#[local] Abbreviation quiet := (quiet (C:=C)).
#[local] Abbreviation returns := (returns (C:=C)).
#[local] Abbreviation once := (once (C:=C)).
#[local] Abbreviation once_unless_thrown := (once_unless_thrown (C:=C)).

Lemma query_eq sql params (w : World C) :
  query sql params w =
    match connection w with
    | None =>
        (Ok None, emit_in (Log (error_msg "Failed to query database.")) w)
    | Some c =>
        let w' := emit_in (Sent sql params)
                    (with_connection (Some (conn_query sql params c).2) w) in
        match (conn_query sql params c).1 with
        | inr v => (Ok (Some v), w')
        | inl _ =>
            (Ok None, emit_in (Log (error_msg "Failed to query database.")) w')
        end
    end.
Proof.
  unfold query, try_catch, bind, connection_query.
  destruct (connection w) as [c|]; [|reflexivity].
  destruct (conn_query sql params c) as [[e|v] c']; reflexivity.
Qed.

Lemma quiet_ret {A} (a : A) : quiet (@ret C A a).
Proof. intros w. reflexivity. Qed.

Lemma quiet_throw {A} e : quiet (@throw C A e).
Proof. intros w. reflexivity. Qed.

Lemma quiet_lift {A} (r : error + A) : quiet (@lift C A r).
Proof. destruct r; intros w; reflexivity. Qed.

Lemma quiet_gets {A} (f : World C -> A) : quiet (gets f).
Proof. intros w. reflexivity. Qed.

Lemma quiet_bind {A B} (m : M C A) (k : A -> M C B) :
  quiet m -> (forall a, quiet (k a)) -> quiet (bind m k).
Proof.
  intros Hm Hk w. unfold bind. specialize (Hm w).
  destruct (m w) as [[a|e] w']; simpl in *; [|exact Hm].
  now rewrite Hk.
Qed.

Lemma quiet_try_catch {A} (m : M C A) (h : error -> M C A) :
  quiet m -> (forall e, quiet (h e)) -> quiet (try_catch m h).
Proof.
  intros Hm Hh w. unfold try_catch. specialize (Hm w).
  destruct (m w) as [[a|e] w']; simpl in *; [exact Hm|].
  now rewrite Hh.
Qed.

Lemma quiet_log e : quiet (@emit C (Log e)).
Proof.
  intros w. unfold emit, modify, emit_in. simpl.
  rewrite calls_app. simpl. apply app_nil_r.
Qed.

Lemma quiet_logger_info msg : quiet (@logger_info C msg).
Proof. apply quiet_log. Qed.

Lemma quiet_logger_error msg : quiet (@logger_error C msg).
Proof. apply quiet_log. Qed.

Lemma quiet_logger_error_val e : quiet (@logger_error_val C e).
Proof. apply quiet_log. Qed.

Lemma quiet_query sql params : quiet (query sql params).
Proof.
  intros w. rewrite query_eq.
  destruct (connection w) as [c|]; simpl.
  - destruct (conn_query sql params c).1; simpl;
      rewrite ?calls_app; simpl; now rewrite ?app_nil_r.
  - rewrite calls_app. simpl. apply app_nil_r.
Qed.

Lemma quiet_JSON_parse_ text : quiet (@JSON_parse_ C _ text).
Proof. unfold JSON_parse_. destruct (JSON_parse text); intros w; reflexivity. Qed.

Lemma returns_ret {A} (a : A) : returns (@ret C A a).
Proof. intros w. now exists a. Qed.

Lemma returns_gets {A} (f : World C -> A) : returns (gets f).
Proof. intros w. now exists (f w). Qed.

Lemma returns_emit e : returns (@emit C e).
Proof. intros w. now exists tt. Qed.

Lemma returns_logger_info msg : returns (@logger_info C msg).
Proof. apply returns_emit. Qed.

Lemma returns_logger_error msg : returns (@logger_error C msg).
Proof. apply returns_emit. Qed.

Lemma returns_logger_error_val e : returns (@logger_error_val C e).
Proof. apply returns_emit. Qed.

Lemma returns_query sql params : returns (query sql params).
Proof.
  intros w. rewrite query_eq.
  destruct (connection w) as [c|]; simpl; [|eauto].
  destruct (conn_query sql params c).1; simpl; eauto.
Qed.

Lemma returns_bind {A B} (m : M C A) (k : A -> M C B) :
  returns m -> (forall a, returns (k a)) -> returns (bind m k).
Proof.
  intros Hm Hk w. unfold bind. destruct (Hm w) as [a Ha].
  destruct (m w) as [[a'|e] w']; simpl in *; [apply Hk|discriminate].
Qed.

Create HintDb js.
#[local] Hint Resolve quiet_ret quiet_throw quiet_lift quiet_gets quiet_log
  quiet_logger_info quiet_logger_error quiet_logger_error_val quiet_query
  quiet_JSON_parse_ returns_ret returns_gets returns_emit returns_query
  returns_logger_info returns_logger_error returns_logger_error_val : js.
#[local] Hint Extern 2 (quiet (bind _ _)) => apply quiet_bind; [|intros ?] : js.
#[local] Hint Extern 2 (quiet (try_catch _ _)) =>
  apply quiet_try_catch; [|intros ?] : js.
#[local] Hint Extern 2 (returns (bind _ _)) => apply returns_bind; [|intros ?] : js.
#[local] Hint Extern 3 (quiet (if ?b then _ else _)) => destruct b : js.
#[local] Hint Extern 3 (quiet (match ?v with VStr _ => _ | _ => _ end)) =>
  destruct v : js.

Lemma out_callback P args : P args -> once_unless_thrown P (callback args).
Proof.
  intros Hr w. simpl. exists args. split; [exact Hr|].
  now rewrite calls_app.
Qed.

Lemma out_throw {A} P e : once_unless_thrown P (@throw C A e).
Proof. intros w. reflexivity. Qed.

Lemma out_bind {A B} P (m : M C A) (k : A -> M C B) :
  quiet m -> (forall a, once_unless_thrown P (k a)) ->
  once_unless_thrown P (bind m k).
Proof.
  intros Hm Hk w. unfold bind. specialize (Hm w).
  destruct (m w) as [[a|e] w']; simpl in *; [|exact Hm].
  specialize (Hk a w'). rewrite <- Hm. exact Hk.
Qed.

Lemma once_callback P args : P args -> once P (callback args).
Proof.
  intros Hr w. exists tt, args. split; [reflexivity|]. split; [exact Hr|].
  simpl. now rewrite calls_app.
Qed.

Lemma once_bind {A B} P (m : M C A) (k : A -> M C B) :
  quiet m -> returns m -> (forall a, once P (k a)) -> once P (bind m k).
Proof.
  intros Hq Hr Hk w. unfold calls_once, bind.
  specialize (Hq w). destruct (Hr w) as [a Ha].
  destruct (m w) as [[a'|e] w']; simpl in *; [|discriminate].
  rewrite <- Hq. apply Hk.
Qed.

Lemma calls_once_gets {A B} P (f : World C -> A) (k : A -> M C B) w :
  calls_once P (k (f w)) w -> calls_once P (bind (gets f) k) w.
Proof. intros Hx. exact Hx. Qed.

Lemma once_try_catch {A} P (m : M C A) (h : error -> M C A) :
  once_unless_thrown P m -> (forall e, once P (h e)) -> once P (try_catch m h).
Proof.
  intros Hm Hh w. unfold calls_once, try_catch. specialize (Hm w).
  destruct (m w) as [[a|e] w']; simpl in *.
  - destruct Hm as (args & Hr & Hc). now exists a, args.
  - rewrite <- Hm. apply Hh.
Qed.

Ltac reply_shape := unfold reply, no_data; eauto 6.

(** One statement of a method body that calls nothing back. *)
Ltac skip_once :=
  apply once_bind;
  [solve [auto 6 with js] | solve [auto 6 with js] | intros ?; cbv beta].
Ltac skip_out :=
  apply out_bind; [solve [auto 6 with js] | intros ?; cbv beta].

(** The [catch] block every method ends with. *)
Lemma once_report P msg e :
  P [AErr e] ->
  once P (logger_error msg ;; logger_error_val e ;; callback [AErr e]).
Proof. intros HP. do 2 skip_once. now apply once_callback. Qed.

Ltac report := intros ?; apply once_report; reply_shape.

(** Past the test of line 213 the rows are a value that counts as false:
    [rows[0]] throws or is [undefined], and reading a property of it
    throws. *)
Lemma out_index0_falsy {B} P rows (f : value -> M C B) :
  truthy rows = false ->
  (forall row, nullish row = true -> once_unless_thrown P (f row)) ->
  once_unless_thrown P (bind (lift (index0 rows)) f).
Proof.
  intros Hf Hk.
  destruct rows as [| |b|n| |s|t|items|props]; simpl in Hf; try discriminate;
    try (intros w; reflexivity);
    try exact (Hk VUndefined eq_refl).
  destruct s; simpl in Hf; [|discriminate].
  exact (Hk VUndefined eq_refl).
Qed.

Lemma out_member_nullish {B} P row k (f : value -> M C B) :
  nullish row = true -> once_unless_thrown P (bind (lift (member row k)) f).
Proof.
  destruct row; simpl; intros Hn; try discriminate; intros w; reflexivity.
Qed.

Lemma get_once session_id : once no_data (get session_id).
Proof.
  unfold get. do 2 skip_once.
  apply once_try_catch; [|report].
  do 2 skip_out.
  match goal with |- context [truthy ?r] => destruct (truthy r) eqn:Hrows end.
  { skip_out. apply out_callback. reply_shape. }
  unfold now_seconds. skip_out.
  apply out_index0_falsy; [exact Hrows|]. intros row Hrow.
  now apply out_member_nullish.
Qed.

(** ** Lines 243-258 *)

Lemma member_field v k : nullish v = false -> member v k = inr (field v k).
Proof. destruct v; simpl; intros Hn; try discriminate; reflexivity. Qed.

Lemma truthy_not_nullish v : truthy v = true -> nullish v = false.
Proof. destruct v; simpl; intros Ht; try discriminate; reflexivity. Qed.

Lemma falsy_field v k : truthy v = false -> truthy (field v k) = false.
Proof. destruct v; simpl; intros Ht; try discriminate; reflexivity. Qed.

Lemma time_of_conversion v :
  match match v with VDate t => VDate t | _ => VDate (new_Date_time v) end with
  | VDate (Some ms) => VNum (round_div1000 ms)
  | _ => VNaN
  end = match time_of v with Some ms => VNum (round_div1000 ms) | None => VNaN end.
Proof. destruct v; reflexivity. Qed.

(** The block of [set] and [touch] computes the expiry of the
    specification, and leaves the world as it is. *)
Lemma payload_expires_eq data (w : World C) :
  nullish data = false ->
  payload_expires data w =
    (Ok (spec_expiry data (now w) (Opt.expiration (options w))), w).
Proof.
  intros Hn. unfold payload_expires, spec_expiry, bind.
  rewrite (member_field _ _ Hn). simpl.
  set (cookie := field data "cookie").
  destruct (truthy cookie) eqn:Hc; simpl.
  - rewrite (member_field cookie "expires" (truthy_not_nullish _ Hc)). simpl.
    destruct (truthy (field cookie "expires")) eqn:He; simpl.
    + rewrite He. simpl. now rewrite time_of_conversion.
    + rewrite (member_field cookie "_expires" (truthy_not_nullish _ Hc)). simpl.
      destruct (truthy (field cookie "_expires")) eqn:He'; simpl.
      * rewrite He'. simpl. now rewrite time_of_conversion.
      * reflexivity.
  - rewrite (falsy_field cookie "expires" Hc), (falsy_field cookie "_expires" Hc).
    reflexivity.
Qed.

Lemma payload_expires_quiet data : quiet (payload_expires data).
Proof.
  intros w. destruct (nullish data) eqn:Hn.
  - destruct data; try discriminate; reflexivity.
  - now rewrite payload_expires_eq.
Qed.

Lemma payload_expires_returns data :
  nullish data = false -> returns (payload_expires data).
Proof. intros Hn w. rewrite payload_expires_eq by exact Hn. eauto. Qed.

#[local] Hint Resolve payload_expires_quiet payload_expires_returns : js.

Lemma set_once session_id data :
  nullish data = false -> once reply (set session_id data).
Proof.
  intros Hn. unfold set. do 3 skip_once.
  apply once_try_catch; [|report].
  skip_out. apply out_callback. reply_shape.
Qed.

Lemma touch_once session_id data (w : World C) :
  Opt.disableTouch (options w) = false -> nullish data = false ->
  calls_once reply (touch session_id data) w.
Proof.
  intros Hd Hn. unfold touch. apply calls_once_gets.
  cbv beta. rewrite Hd. clear Hd. generalize (options w). intros o.
  match goal with
  | |- calls_once _ ?m w => cut (once reply m); [intros Hx; exact (Hx w)|]
  end.
  do 2 skip_once.
  apply once_try_catch; [|report].
  skip_out. apply out_callback. reply_shape.
Qed.

Lemma touch_disabled session_id data (w : World C) :
  Opt.disableTouch (options w) = true ->
  touch session_id data w = (Ok tt, w).
Proof. intros Hd. unfold touch, bind, gets. now rewrite Hd. Qed.

Lemma destroy_once session_id : once reply (destroy session_id true).
Proof.
  intros w. unfold calls_once, destroy, bind, try_catch, logger_info, emit,
    modify, gets, ret.
  rewrite query_eq.
  destruct (connection _) as [c|]; simpl;
    [destruct (conn_query _ _ c).1; simpl|];
    exists tt, []; (split; [reflexivity|]); (split; [reply_shape|]);
    rewrite ?calls_app; simpl; now rewrite ?app_nil_r.
Qed.

Lemma length_once : once reply length.
Proof.
  unfold length, now_seconds. do 3 skip_once.
  apply once_try_catch; [|report].
  do 4 skip_out. apply out_callback. reply_shape.
Qed.

Lemma all_row_quiet sessions row : quiet (all_row sessions row).
Proof.
  unfold all_row. apply quiet_bind; [auto with js|]. intros session_id.
  apply quiet_bind; [auto with js|]. intros data.
  apply quiet_bind.
  - destruct data; auto 6 with js.
  - intros [v|]; auto with js.
Qed.

Lemma all_rows_quiet rows : forall sessions, quiet (all_rows sessions rows).
Proof.
  induction rows as [|row rows IH]; intros sessions; simpl; [auto with js|].
  apply quiet_bind; [apply all_row_quiet|]. intros sessions'. apply IH.
Qed.

Lemma all_once : once reply all.
Proof.
  unfold all, now_seconds. do 2 skip_once.
  apply once_try_catch.
  2:{ intros e. apply once_callback. reply_shape. }
  do 2 skip_out.
  apply out_bind.
  - match goal with |- quiet (match ?r with _ => _ end) => destruct r end;
      auto using all_rows_quiet with js.
  - intros sessions. apply out_callback. reply_shape.
Qed.

Lemma touch_disabled_not_once P session_id data (w : World C) :
  Opt.disableTouch (options w) = true ->
  ~ calls_once P (touch session_id data) w.
Proof.
  intros Hd (a & args & _ & _ & Hc). rewrite touch_disabled in Hc by exact Hd.
  simpl in Hc. apply (f_equal List.length) in Hc.
  rewrite List.length_app in Hc. simpl in Hc. lia.
Qed.


(** ** What the callbacks are never given *)

(** X5. Whatever the connection answers, [get] returns after one call of
    its callback, and the call hands over [null] alone or an error: no
    answer of the database makes [get] hand over a session. *)
Theorem get_never_hands_back_data (w : World C) (session_id : string) :
  exists args,
    (get session_id w).1 = Ok tt /\
    calls (trace (get session_id w).2) = calls (trace w) ++ [args] /\
    (args = [ANull] \/ exists e, args = [AErr e]).
Proof.
  destruct (get_once session_id w) as ([] & args & Ha & Hs & Hc).
  exists args. auto.
Qed.

Lemma rejections_app tr tr' :
  rejections (tr ++ tr') = rejections tr ++ rejections tr'.
Proof. apply omap_app. Qed.

(** X6. [clear] never calls its callback, supplied or not, and never
    throws or leaves a rejection behind, whatever the connection
    answers: the caller is told neither that the rows are gone nor that
    the statement failed. *)
Theorem clear_never_calls_back (w : World C) (has_callback : bool) :
  (clear has_callback w).1 = Ok tt /\
  calls (trace (clear has_callback w).2) = calls (trace w) /\
  rejections (trace (clear has_callback w).2) = rejections (trace w).
Proof.
  unfold clear, spawn, try_catch, bind, logger_info, emit, modify, gets.
  cbv beta iota. rewrite query_eq.
  destruct (connection _) as [c|]; cbv zeta;
    [destruct (conn_query _ _ c).1|]; cbn [fst snd]; cbn [trace emit_in with_trace with_connection fst snd];
    rewrite !calls_app, !rejections_app; cbn [calls rejections omap];
    rewrite ?app_nil_r; auto.
Qed.

(** X7. A payload that is [undefined] or [null] makes [set] throw a
    [TypeError] before it sends a statement or calls back, and so does
    [touch] unless touch is disabled: the caller's callback is never
    told. *)
Theorem nullish_payload_throws_before_callback
    (w : World C) (session_id : string) (data : value) :
  nullish data = true ->
  (exists msg w',
      set session_id data w = (Throw (TypeError msg), w') /\
      statements (trace w') = statements (trace w) /\
      calls (trace w') = calls (trace w)) /\
  (Opt.disableTouch (options w) = false ->
   exists msg w',
      touch session_id data w = (Throw (TypeError msg), w') /\
      statements (trace w') = statements (trace w) /\
      calls (trace w') = calls (trace w)).
Proof.
  intros Hn. split.
  - destruct data; try discriminate;
      (eexists _, _; split; [reflexivity|]); cbn [trace emit_in with_trace with_connection fst snd];
      rewrite !statements_app, !calls_app; cbn [statements calls omap];
      rewrite ?app_nil_r; auto.
  - intros Hd. unfold touch, bind at 1, gets at 1. cbv beta iota. rewrite Hd.
    destruct data; try discriminate;
      (eexists _, _; split; [reflexivity|]); cbn [trace emit_in with_trace with_connection fst snd];
      rewrite !statements_app, !calls_app; cbn [statements calls omap];
      rewrite ?app_nil_r; auto.
Qed.

(** ** The default expiry *)

Lemma round_div1000_mono a b : a <= b -> round_div1000 a <= round_div1000 b.
Proof. intros Hle. unfold round_div1000. apply Z.div_le_mono; lia. Qed.

Lemma round_div1000_near ms :
  ms - 500 < 1000 * round_div1000 ms <= ms + 500.
Proof.
  unfold round_div1000.
  pose proof (Z.mul_div_le (ms + 500) 1000 ltac:(lia)).
  pose proof (Z.mul_succ_div_gt (ms + 500) 1000 ltac:(lia)).
  lia.
Qed.

(** X8. A payload whose cookie sets neither [expires] nor [_expires]
    (or that has no cookie) gets the expiry now plus the configured
    expiration, rounded to the nearest second: within half a second of
    it, and, the expiration not being negative, not before the current
    second, so that the session is not expired when it is stored. The
    time is one a [Date] can hold. *)
Theorem default_expiry_is_not_expired
    (w : World C) (data : value) :
  nullish data = false ->
  truthy (field (field data "cookie") "expires") = false ->
  truthy (field (field data "cookie") "_expires") = false ->
  0 <= Opt.expiration (options w) ->
  Z.abs (now w + Opt.expiration (options w)) <= 8640000000000000 ->
  exists e,
    payload_expires data w = (Ok (VNum e), w) /\
    round_div1000 (now w) <= e /\
    now w + Opt.expiration (options w) - 500 < 1000 * e
      <= now w + Opt.expiration (options w) + 500.
Proof.
  intros Hn He1 He2 Hpos Hrange.
  rewrite payload_expires_eq by exact Hn.
  unfold spec_expiry. rewrite He1, He2.
  cbn [time_of new_Date_time]. unfold TimeClip.
  destruct (Z.leb_spec (Z.abs (now w + Opt.expiration (options w)))
              8640000000000000) as [_|Hgt]; [|lia].
  eexists. split; [reflexivity|]. split.
  - apply round_div1000_mono. lia.
  - apply round_div1000_near.
Qed.

(** X9. A default expiry that no [Date] can hold is stored as no number:
    the expiry handed to the statement is NaN. *)
Theorem out_of_range_expiry_is_NaN (w : World C) (data : value) :
  nullish data = false ->
  truthy (field (field data "cookie") "expires") = false ->
  truthy (field (field data "cookie") "_expires") = false ->
  8640000000000000 < Z.abs (now w + Opt.expiration (options w)) ->
  payload_expires data w = (Ok VNaN, w).
Proof.
  intros Hn He1 He2 Hrange.
  rewrite payload_expires_eq by exact Hn.
  unfold spec_expiry. rewrite He1, He2.
  cbn [time_of new_Date_time]. unfold TimeClip.
  destruct (Z.leb_spec (Z.abs (now w + Opt.expiration (options w)))
              8640000000000000) as [Hle|_]; [lia|reflexivity].
Qed.

End Completion.

(** ** Initialisation and shutdown *)

(** Reading a field of a world that was just written to. *)
Ltac fields :=
  cbn [state connection options onReadyPromises expirationInterval now timers
       timer_seq init_pending trace emit_in with_state with_connection
       with_options with_onReadyPromises with_expirationInterval with_timers
       with_init_pending with_trace fst snd].

Section Lifecycle.
Context {C : Type} `{Connection C} `{Runtime}.

#[local] Abbreviation kept := (kept (C:=C)).

Lemma kept_refl w : kept w w.
Proof. unfold kept. tauto. Qed.

Lemma kept_trans w1 w2 w3 : kept w1 w2 -> kept w2 w3 -> kept w1 w3.
Proof. unfold kept. intuition congruence. Qed.

Lemma kept_log e (w : World C) : kept w (emit_in (Log e) w).
Proof.
  unfold kept. fields. rewrite settlements_app, ends_app. simpl.
  rewrite app_nil_r, Nat.add_0_r. tauto.
Qed.

Lemma query_kept sql params (w : World C) :
  exists r w', query sql params w = (Ok r, w') /\ kept w w'.
Proof.
  rewrite query_eq. destruct (connection w) as [c|] eqn:Hc.
  - assert (Hsent : kept w (emit_in (Sent sql params)
       (with_connection (Some (conn_query sql params c).2) w))).
    { unfold kept. fields. rewrite settlements_app, ends_app. simpl.
      rewrite app_nil_r, Nat.add_0_r. repeat split; eauto. }
    cbv zeta. destruct (conn_query sql params c).1.
    + eexists _, _. split; [reflexivity|].
      eapply kept_trans; [exact Hsent|apply kept_log].
    + eexists _, _. split; [reflexivity|exact Hsent].
  - eexists _, _. split; [reflexivity|apply kept_log].
Qed.

Lemma createDatabaseTable_kept (w : World C) :
  exists r w', createDatabaseTable w = (Ok r, w') /\ kept w w'.
Proof.
  unfold createDatabaseTable, bind at 1, gets at 1. cbv beta iota.
  unfold try_catch, bind at 1.
  match goal with
  | |- context [query ?sql ?ps w] =>
      destruct (query_kept sql ps w) as (r & w1 & E & Hk)
  end.
  rewrite E. cbv beta iota. unfold bind, logger_info, emit, modify, ret.
  cbv beta iota. eexists _, _. split; [reflexivity|].
  eapply kept_trans; [exact Hk|apply kept_log].
Qed.

Lemma clearExpirationInterval_kept (w : World C) :
  exists w', clearExpirationInterval w = (Ok tt, w') /\ kept w w'.
Proof.
  unfold clearExpirationInterval, clearInterval, logger_info, emit, bind, gets,
    modify. cbv beta iota. fields.
  assert (Hl := kept_log (info "Clearing expiration interval") w).
  destruct (expirationInterval w) as [h|]; cbv beta iota;
    (eexists; split; [reflexivity|]);
    revert Hl; unfold kept; fields; tauto.
Qed.

Lemma setExpirationInterval_kept interval (w : World C) :
  exists w', setExpirationInterval interval w = (Ok tt, w') /\ kept w w'.
Proof.
  unfold setExpirationInterval, bind at 1, gets at 1. cbv beta iota.
  unfold bind at 1, logger_info2, emit at 1, modify at 1. cbv beta iota.
  set (w0 := emit_in _ w). assert (H0' : kept w w0) by apply kept_log.
  destruct (clearExpirationInterval_kept w0) as (w1 & E1 & H1).
  unfold bind at 1. rewrite E1. cbv beta iota.
  unfold bind at 1, spawn, clearExpiredSessions.
  unfold bind at 1, gets at 1. cbv beta iota.
  unfold bind at 1, logger_info, emit at 1, modify at 1. cbv beta iota.
  set (w2 := emit_in _ w1). assert (H2 : kept w1 w2) by apply kept_log.
  unfold bind at 1, now_seconds, gets at 1. cbv beta iota.
  unfold try_catch, bind at 1.
  match goal with
  | |- context [query ?sql ?ps w2] =>
      destruct (query_kept sql ps w2) as (r & w3 & E3 & H3)
  end.
  rewrite E3. cbv beta iota. unfold ret at 1. cbv beta iota.
  unfold setInterval, bind, gets, modify, ret. cbv beta iota.
  eexists. split; [reflexivity|].
  assert (H4 : kept w w3) by eauto using kept_trans.
  revert H4. unfold kept. fields. tauto.
Qed.

Lemma forEach_onReady (ps : list nat) : forall w : World C,
  state w <> INITIALIZED ->
  exists w',
    forEach ps onReady w = (Ok tt, w') /\
    w' = with_onReadyPromises (onReadyPromises w ++ ps) w.
Proof.
  induction ps as [|p ps IH]; intros w Hs; simpl.
  - eexists. split; [reflexivity|]. destruct w; simpl. now rewrite app_nil_r.
  - unfold bind, onReady at 1, gets, bind, modify.
    destruct (state w) eqn:Hst; try congruence;
      (destruct (IH (with_onReadyPromises (onReadyPromises w ++ [p]) w))
         as (w' & Heq & Hw'); [simpl; congruence|];
       rewrite Heq; eexists; split; [reflexivity|];
       rewrite Hw'; simpl; now rewrite <- app_assoc).
Qed.

Lemma forEach_settle (s : settlement) (ps : list nat) : forall w : World C,
  forEach ps (fun promise => emit (Settle promise s)) w =
    (Ok tt, with_trace (trace w ++ map (fun p => Settle p s) ps) w).
Proof.
  induction ps as [|p ps IH]; intros w; simpl.
  - destruct w; simpl. now rewrite app_nil_r.
  - unfold bind, emit at 1, modify. rewrite IH. unfold emit_in. simpl.
    now rewrite <- app_assoc.
Qed.

Lemma settlements_settle s ps :
  settlements (map (fun p => Settle p s) ps) = map (fun p => (p, s)) ps.
Proof. induction ps as [|p ps IH]; simpl; [reflexivity|]. now rewrite IH. Qed.

Lemma ends_settle s ps : ends (map (fun p => Settle p s) ps) = 0%nat.
Proof. induction ps as [|p ps IH]; simpl; [reflexivity|exact IH]. Qed.

Lemma resolveReadyPromises_eq (w : World C) :
  resolveReadyPromises w =
    (Ok tt,
     with_onReadyPromises []
       (with_trace
          (trace w ++ map (fun p => Settle p Resolved) (onReadyPromises w)) w)).
Proof.
  unfold resolveReadyPromises, bind, gets, modify. now rewrite forEach_settle.
Qed.

(** The queued initialisation always succeeds: whatever the connection
    answers, the store ends [INITIALIZED] and every waiter is resolved. *)
Lemma initialize_spec (w : World C) :
  init_pending w = true ->
  exists w',
    initialize w = (Ok tt, w') /\
    state w' = INITIALIZED /\
    options w' = options w /\
    (is_Some (connection w) -> is_Some (connection w')) /\
    settlements (trace w') =
      settlements (trace w) ++ map (fun p => (p, Resolved)) (onReadyPromises w) /\
    ends (trace w') = ends (trace w).
Proof.
  intros Hp.
  unfold initialize, bind at 1, gets at 1. rewrite Hp.
  unfold bind at 1, modify at 1. cbv beta iota.
  set (w0 := with_init_pending false w).
  assert (K0 : kept w w0) by (unfold kept; subst w0; fields; tauto).
  unfold try_catch, bind at 1, gets at 1. cbv beta iota.
  assert (Hstep1 : exists w1,
    (if Opt.createDatabaseTable (options w0)
     then createDatabaseTable ;; ret tt else ret tt) w0 = (Ok tt, w1) /\
    kept w0 w1).
  { destruct (Opt.createDatabaseTable (options w0)).
    - destruct (createDatabaseTable_kept w0) as (r & w1 & E1 & K1).
      unfold bind. rewrite E1. eauto.
    - eauto using kept_refl. }
  destruct Hstep1 as (w1 & E1 & K1).
  unfold bind at 1. rewrite E1. cbv beta iota.
  unfold bind at 1, modify at 1. cbv beta iota.
  set (w2 := with_state INITIALIZED w1).
  unfold bind at 1, gets at 1. cbv beta iota.
  assert (Hstep2 : exists w3,
    (if Opt.clearExpired (options w2)
     then setExpirationInterval None else ret tt) w2 = (Ok tt, w3) /\
    kept w2 w3).
  { destruct (Opt.clearExpired (options w2)).
    - apply setExpirationInterval_kept.
    - eauto using kept_refl. }
  destruct Hstep2 as (w3 & E3 & K3).
  unfold bind at 1. rewrite E3. cbv beta iota.
  rewrite resolveReadyPromises_eq.
  eexists. split; [reflexivity|]. fields.
  assert (K : kept w w1) by eauto using kept_trans.
  destruct K as (Ks & Ko & Kr & Kc & Kt & Ke).
  destruct K3 as (Ks3 & Ko3 & Kr3 & Kc3 & Kt3 & Ke3).
  subst w2. revert Ks3 Ko3 Kr3 Kc3 Kt3 Ke3. fields.
  intros Ks3 Ko3 Kr3 Kc3 Kt3 Ke3.
  rewrite settlements_app, ends_app, settlements_settle, ends_settle.
  rewrite Kt3, Ke3, Kr3, Kt, Ke, Kr, Ko3, Ko, Nat.add_0_r.
  repeat split; auto.
Qed.

(** Closing an initialised store whose options say so ends the
    connection. *)
Lemma close_ends (w : World C) :
  state w = INITIALIZED -> is_Some (connection w) ->
  Opt.endConnectionOnClose (options w) = true ->
  exists r w',
    close w = (r, w') /\ state w' = CLOSED /\
    ends (trace w') = S (ends (trace w)).
Proof.
  intros Hs [c Hc] Ho.
  unfold close, bind at 1, logger_info, emit at 1, modify at 1. cbv beta iota.
  set (w0 := emit_in _ w). assert (K0 : kept w w0) by apply kept_log.
  destruct (clearExpirationInterval_kept w0) as (w1 & E1 & K1).
  unfold bind at 1. rewrite E1. cbv beta iota.
  assert (K : kept w w1) by eauto using kept_trans.
  destruct K as (Ks & Ko & _ & Kc & _ & Ke).
  destruct Kc as [c1 Hc1]; [rewrite Hc; eauto|].
  unfold bind, gets, modify, finally, connection_end. cbv beta iota. fields.
  rewrite Ks, Hs, Hc1, Ko, Ho. cbv beta iota. fields. rewrite Hc1.
  destruct (conn_end c1) as [[e|] c2]; cbv beta iota;
    eexists _, _; (split; [reflexivity|]); fields;
    rewrite ends_app, Ke; change (ends [Ended]) with 1%nat;
    (split; [reflexivity|lia]).
Qed.

(** C5. A store is built on a connection of the caller, with no options
    object. The option [endConnectionOnClose] in force is then [true],
    the default, and closing the store once it is initialised calls
    [end()] on that connection. *)
Theorem close_ends_connection_of_caller (c : C) (clock : Z) :
  exists w1 w2 r w3,
    constructor None (Some c) (fresh clock) = (Ok tt, w1) /\
    Opt.endConnectionOnClose (options w1) = true /\
    initialize w1 = (Ok tt, w2) /\
    close w2 = (r, w3) /\
    ends (trace w3) = 1%nat.
Proof.
  exists (built c clock).
  destruct (initialize_spec (built c clock)) as (w2 & E2 & Hs & Ho & Hc & _ & He);
    [reflexivity|].
  destruct (close_ends w2) as (r & w3 & E3 & _ & He3).
  - exact Hs.
  - apply Hc. simpl. eauto.
  - rewrite Ho. reflexivity.
  - exists w2, r, w3. repeat split; try assumption.
    rewrite He3, He. reflexivity.
Qed.

(** ** Steps that only talk to the connection *)

#[local] Abbreviation io_only := (io_only (C:=C)).
#[local] Abbreviation rest_kept := (rest_kept (C:=C)).

Lemma io_only_refl w : io_only w w.
Proof. unfold io_only. tauto. Qed.

Lemma io_only_trans w1 w2 w3 : io_only w1 w2 -> io_only w2 w3 -> io_only w1 w3.
Proof. unfold io_only. intuition congruence. Qed.

Lemma io_only_rest w w' : io_only w w' -> rest_kept w w'.
Proof. unfold io_only, rest_kept. tauto. Qed.

Lemma rest_kept_trans w1 w2 w3 :
  rest_kept w1 w2 -> rest_kept w2 w3 -> rest_kept w1 w3.
Proof. unfold rest_kept. intuition congruence. Qed.

Ltac trace_facts :=
  rewrite ?calls_app, ?settlements_app, ?ends_app, ?rejections_app,
    ?statements_app;
  cbn [calls settlements rejections statements omap ends List.filter
       List.length];
  rewrite ?app_nil_r, ?Nat.add_0_r.

Lemma io_only_log e (w : World C) : io_only w (emit_in (Log e) w).
Proof. unfold io_only. fields. trace_facts. tauto. Qed.

Lemma query_io sql params (w : World C) :
  exists r w',
    query sql params w = (Ok r, w') /\ io_only w w' /\
    (connection w = None -> connection w' = None) /\
    statements (trace w') =
      statements (trace w)
      ++ match connection w with Some _ => [(sql, params)] | None => [] end.
Proof.
  rewrite query_eq. destruct (connection w) as [c|] eqn:Hc.
  - cbv zeta. destruct (conn_query sql params c).1;
      eexists _, _; (split; [reflexivity|]); unfold io_only; fields;
      trace_facts; rewrite Hc; repeat split; eauto; discriminate.
  - eexists _, _. split; [reflexivity|]. unfold io_only. fields. trace_facts.
    rewrite Hc. repeat split; auto.
Qed.

Lemma createDatabaseTable_io (w : World C) :
  exists r w', createDatabaseTable w = (Ok r, w') /\ io_only w w'.
Proof.
  unfold createDatabaseTable, bind at 1, gets at 1. cbv beta iota.
  unfold try_catch, bind at 1.
  match goal with
  | |- context [query ?sql ?ps w] =>
      destruct (query_io sql ps w) as (r & w1 & E & Hk & _)
  end.
  rewrite E. cbv beta iota. unfold bind, logger_info, emit, modify, ret.
  cbv beta iota. eexists _, _. split; [reflexivity|].
  eapply io_only_trans; [exact Hk|apply io_only_log].
Qed.

(** A sweep, asked for by the store or by a timer: it returns, whatever
    the connection answers. *)
Lemma clearExpiredSessions_io (given : option Opt.t) (w : World C) :
  exists r w',
    clearExpiredSessions given w = (Ok r, w') /\ io_only w w' /\
    statements (trace w') =
      statements (trace w)
      ++ match connection w with
         | Some _ =>
             [("DELETE FROM ?? WHERE ?? < ?",
               [VStr (Opt.tableName (Opt.schema (default (options w) given)));
                Opt.column (default (options w) given) "expires";
                VNum (round_div1000 (now w))])]
         | None => []
         end.
Proof.
  unfold clearExpiredSessions, bind at 1, gets at 1. cbv beta iota.
  unfold bind at 1, logger_info, emit at 1, modify at 1. cbv beta iota.
  set (w0 := emit_in _ w). assert (K0 : io_only w w0) by apply io_only_log.
  unfold bind at 1, now_seconds, gets at 1. cbv beta iota.
  unfold try_catch, bind at 1.
  match goal with
  | |- context [query ?sql ?ps w0] =>
      destruct (query_io sql ps w0) as (r & w1 & E & Hk & _ & Hs)
  end.
  rewrite E. cbv beta iota. unfold ret. eexists _, _. split; [reflexivity|].
  split; [eauto using io_only_trans|].
  rewrite Hs. subst w0. fields. trace_facts. reflexivity.
Qed.

Lemma clearExpirationInterval_spec (w : World C) :
  exists w',
    clearExpirationInterval w = (Ok tt, w') /\ rest_kept w w' /\
    connection w' = connection w /\
    expirationInterval w' = None /\
    timer_seq w' = timer_seq w /\
    timers w' =
      match expirationInterval w with
      | Some h => List.filter (fun tm => negb (Nat.eqb tm.1 h)) (timers w)
      | None => timers w
      end /\
    statements (trace w') = statements (trace w).
Proof.
  unfold clearExpirationInterval, clearInterval, logger_info, emit, bind, gets,
    modify. cbv beta iota. fields.
  destruct (expirationInterval w) as [h|]; cbv beta iota;
    (eexists; split; [reflexivity|]); unfold rest_kept; fields; trace_facts;
    tauto.
Qed.

Lemma setExpirationInterval_spec interval (w : World C) :
  exists w',
    setExpirationInterval interval w = (Ok tt, w') /\ rest_kept w w' /\
    expirationInterval w' = Some (timer_seq w) /\
    timer_seq w' = S (timer_seq w) /\
    timers w' =
      match expirationInterval w with
      | Some h => List.filter (fun tm => negb (Nat.eqb tm.1 h)) (timers w)
      | None => timers w
      end
      ++ [(timer_seq w,
           (default (Opt.checkExpirationInterval (options w)) interval,
            options w))] /\
    statements (trace w') =
      statements (trace w)
      ++ match connection w with
         | Some _ =>
             [("DELETE FROM ?? WHERE ?? < ?",
               [VStr (Opt.tableName (Opt.schema (options w)));
                Opt.column (options w) "expires";
                VNum (round_div1000 (now w))])]
         | None => []
         end.
Proof.
  unfold setExpirationInterval, bind at 1, gets at 1. cbv beta iota.
  unfold bind at 1, logger_info2, emit at 1, modify at 1. cbv beta iota.
  set (w0 := emit_in _ w). assert (K0 : io_only w w0) by apply io_only_log.
  destruct (clearExpirationInterval_spec w0)
    as (w1 & E1 & K1 & Hc1 & He1 & Hq1 & Ht1 & Hs1).
  unfold bind at 1. rewrite E1. cbv beta iota.
  destruct (clearExpiredSessions_io None w1) as (r & w2 & E2 & K2 & Hs2).
  unfold bind at 1, spawn. rewrite E2. cbv beta iota.
  unfold setInterval, bind, gets, modify, ret. cbv beta iota.
  eexists. split; [reflexivity|]. fields.
  pose proof (io_only_rest _ _ K0) as R0.
  pose proof (rest_kept_trans _ _ _ R0 K1) as R1.
  pose proof (rest_kept_trans _ _ _ R1 (io_only_rest _ _ K2)) as R2.
  destruct K2 as (_ & Ko2 & _ & _ & _ & Kt2 & Kq2 & _).
  destruct R1 as (_ & Ko1 & _ & Kn1 & _).
  split; [revert R2; unfold rest_kept; fields; tauto|].
  rewrite Kq2, Hq1, Kt2, Ht1, Ko2, Ko1, Hs2, Hc1, Hs1.
  subst w0. fields. trace_facts.
  cbn [from_option id]. rewrite Ko1, Kn1. fields.
  repeat split; reflexivity.
Qed.

(** ** The sweeper *)

#[local] Abbreviation armed_once := (armed_once (C:=C)).

Lemma armed_once_cleared (w : World C) :
  armed_once w ->
  match expirationInterval w with
  | Some h => List.filter (fun tm => negb (Nat.eqb tm.1 h)) (timers w)
  | None => timers w
  end = [].
Proof.
  unfold armed_once. destruct (expirationInterval w) as [h|]; [|auto].
  intros (i & a & ->). cbn. now rewrite Nat.eqb_refl.
Qed.

(** X10. Arming the sweeper again does not stack timers: when the only
    timer is the one the store holds, [setExpirationInterval] leaves
    exactly one timer, a new one, armed with the interval asked for (the
    configured one by default) and with the options in force, and the
    store holds its handle. It sweeps once at once, calls nothing back
    and rejects nothing. *)
Theorem rearming_leaves_one_timer (interval : option Z) (w : World C) :
  armed_once w ->
  exists w',
    setExpirationInterval interval w = (Ok tt, w') /\
    timers w' =
      [(timer_seq w,
        (default (Opt.checkExpirationInterval (options w)) interval,
         options w))] /\
    expirationInterval w' = Some (timer_seq w) /\
    armed_once w' /\
    rest_kept w w'.
Proof.
  intros Ha.
  destruct (setExpirationInterval_spec interval w)
    as (w' & E & K & He & _ & Ht & _).
  rewrite (armed_once_cleared w Ha) in Ht.
  exists w'. split; [exact E|]. split; [exact Ht|]. split; [exact He|].
  split; [|exact K]. unfold armed_once. rewrite He. eauto.
Qed.

(** X11. A timer that fires sweeps with the options it was armed with, not
    with those in force: the statement names the table and the expiry
    column of that time. Whatever the connection answers, the timer
    stays armed, nothing is called back and no rejection is left
    unhandled. *)
Theorem timer_sweeps_with_armed_options
    (w : World C) (h h' : nat) (interval : Z) (a : Opt.t) :
  List.find (fun tm => Nat.eqb tm.1 h) (timers w) = Some (h', (interval, a)) ->
  is_Some (connection w) ->
  exists w',
    interval_fires h w = (Ok tt, w') /\
    statements (trace w') =
      statements (trace w)
      ++ [("DELETE FROM ?? WHERE ?? < ?",
           [VStr (Opt.tableName (Opt.schema a)); Opt.column a "expires";
            VNum (round_div1000 (now w))])] /\
    io_only w w'.
Proof.
  intros Hf [c Hc]. unfold interval_fires, bind, gets. rewrite Hf.
  destruct (clearExpiredSessions_io (Some a) w) as (r & w' & E & K & Hs).
  unfold spawn. rewrite E. exists w'. split; [reflexivity|].
  split; [|exact K]. rewrite Hs, Hc. reflexivity.
Qed.

(** ** Closing *)

Lemma close_without_end (w : World C) :
  state w <> INITIALIZED \/ Opt.endConnectionOnClose (options w) = false ->
  exists w',
    close w = (Ok tt, w') /\ rest_kept w w' /\
    connection w' = connection w /\
    expirationInterval w' = None /\
    timers w' =
      match expirationInterval w with
      | Some h => List.filter (fun tm => negb (Nat.eqb tm.1 h)) (timers w)
      | None => timers w
      end.
Proof.
  intros Hwhy.
  unfold close, bind at 1, logger_info, emit at 1, modify at 1. cbv beta iota.
  set (w0 := emit_in _ w). assert (K0 : io_only w w0) by apply io_only_log.
  destruct (clearExpirationInterval_spec w0)
    as (w1 & E1 & K1 & Hc1 & He1 & Hq1 & Ht1 & _).
  unfold bind at 1. rewrite E1. cbv beta iota.
  pose proof (rest_kept_trans _ _ _ (io_only_rest _ _ K0) K1) as R.
  destruct R as (Rs & Ro & R').
  unfold bind, gets. cbv beta iota. rewrite Rs, Ro.
  assert (Hrest : rest_kept w w1 /\ connection w1 = connection w /\
            expirationInterval w1 = None /\
            timers w1 =
              match expirationInterval w with
              | Some h => List.filter (fun tm => negb (Nat.eqb tm.1 h)) (timers w)
              | None => timers w
              end) by (unfold rest_kept; tauto).
  destruct Hwhy as [Hs|Ho]; [|rewrite Ho];
    destruct (state w); try congruence;
    destruct (connection w1) eqn:Hcw;
    exists w1; (split; [reflexivity|]); rewrite ?Hcw; exact Hrest.
Qed.

(** X12. [close] ends the connection at most once: on an initialised
    store whose options say to end it, the first [close] calls [end()]
    and leaves the store [CLOSED]; a second [close] returns without
    calling [end()] again and leaves it [CLOSED]. *)
Theorem close_ends_connection_once (w : World C) :
  state w = INITIALIZED -> is_Some (connection w) ->
  Opt.endConnectionOnClose (options w) = true ->
  exists r w1 w2,
    close w = (r, w1) /\ state w1 = CLOSED /\
    close w1 = (Ok tt, w2) /\ state w2 = CLOSED /\
    ends (trace w2) = S (ends (trace w)).
Proof.
  intros Hs Hc Ho.
  destruct (close_ends w Hs Hc Ho) as (r & w1 & E1 & Hs1 & He1).
  destruct (close_without_end w1) as (w2 & E2 & K2 & _);
    [left; congruence|].
  destruct K2 as (Ks & _ & _ & _ & _ & _ & _ & _ & Ke & _).
  exists r, w1, w2. repeat split; try assumption; congruence.
Qed.

(** X13. When [end()] rejects, [close] throws that error to its caller,
    and the store is [CLOSED] all the same; when [end()] resolves,
    [close] returns. Either way the timer is cancelled first. *)
Theorem close_reports_end_failure (w : World C) (c : C) :
  state w = INITIALIZED -> connection w = Some c ->
  Opt.endConnectionOnClose (options w) = true ->
  exists w',
    close w =
      (match (conn_end c).1 with
       | Some e => Throw e
       | None => Ok tt
       end, w') /\
    state w' = CLOSED /\
    connection w' = Some (conn_end c).2 /\
    expirationInterval w' = None.
Proof.
  intros Hs Hc Ho.
  unfold close, bind at 1, logger_info, emit at 1, modify at 1. cbv beta iota.
  set (w0 := emit_in _ w). assert (K0 : io_only w w0) by apply io_only_log.
  destruct (clearExpirationInterval_spec w0)
    as (w1 & E1 & K1 & Hc1 & He1 & _).
  unfold bind at 1. rewrite E1. cbv beta iota.
  pose proof (rest_kept_trans _ _ _ (io_only_rest _ _ K0) K1) as R.
  destruct R as (Rs & Ro & _).
  assert (Hc1' : connection w1 = Some c) by (rewrite Hc1; exact Hc).
  unfold bind, gets, modify, finally, connection_end. cbv beta iota. fields.
  rewrite Rs, Hs, Hc1', Ro, Ho. cbv beta iota. fields. rewrite Hc1'.
  destruct (conn_end c) as [[e|] c2]; cbv beta iota;
    eexists; (split; [reflexivity|]); fields; auto.
Qed.

(** ** Readiness *)

Lemma initialize_full (w : World C) :
  init_pending w = true ->
  exists w',
    initialize w = (Ok tt, w') /\
    state w' = INITIALIZED /\
    options w' = options w /\
    init_pending w' = false /\
    onReadyPromises w' = [] /\
    (is_Some (connection w) <-> is_Some (connection w')) /\
    settlements (trace w') =
      settlements (trace w) ++ map (fun p => (p, Resolved)) (onReadyPromises w) /\
    ends (trace w') = ends (trace w) /\
    rejections (trace w') = rejections (trace w).
Proof.
  intros Hp.
  unfold initialize, bind at 1, gets at 1. rewrite Hp.
  unfold bind at 1, modify at 1. cbv beta iota.
  set (w0 := with_init_pending false w).
  unfold try_catch, bind at 1, gets at 1. cbv beta iota.
  assert (Hstep1 : exists w1,
    (if Opt.createDatabaseTable (options w0)
     then createDatabaseTable ;; ret tt else ret tt) w0 = (Ok tt, w1) /\
    io_only w0 w1).
  { destruct (Opt.createDatabaseTable (options w0)).
    - destruct (createDatabaseTable_io w0) as (r & w1 & E1 & K1).
      unfold bind. rewrite E1. eauto.
    - eauto using io_only_refl. }
  destruct Hstep1 as (w1 & E1 & K1).
  unfold bind at 1. rewrite E1. cbv beta iota.
  unfold bind at 1, modify at 1. cbv beta iota.
  set (w2 := with_state INITIALIZED w1).
  unfold bind at 1, gets at 1. cbv beta iota.
  assert (Hstep2 : exists w3,
    (if Opt.clearExpired (options w2)
     then setExpirationInterval None else ret tt) w2 = (Ok tt, w3) /\
    rest_kept w2 w3).
  { destruct (Opt.clearExpired (options w2)).
    - destruct (setExpirationInterval_spec None w2) as (w3 & E3 & K3 & _).
      eauto.
    - exists w2. split; [reflexivity|]. unfold rest_kept. tauto. }
  destruct Hstep2 as (w3 & E3 & K3).
  unfold bind at 1. rewrite E3. cbv beta iota.
  rewrite resolveReadyPromises_eq.
  eexists. split; [reflexivity|]. fields.
  destruct K1 as (_ & Ko1 & Kr1 & _ & _ & _ & _ & Kp1 & Kc1 & _ & Kt1 & Ke1 & Kj1).
  destruct K3 as (Ks3 & Ko3 & Kr3 & _ & Kp3 & Kc3 & _ & Kt3 & Ke3 & Kj3).
  subst w2 w0. revert Ko1 Kr1 Kp1 Kc1 Kt1 Ke1 Kj1 Ks3 Ko3 Kr3 Kp3 Kc3 Kt3 Ke3 Kj3.
  fields. intros.
  rewrite settlements_app, ends_app, rejections_app, settlements_settle,
    ends_settle.
  assert (Hrej : forall ps,
    rejections (map (fun p : nat => Settle p Resolved) ps) = []).
  { induction ps as [|p ps IH]; [reflexivity|exact IH]. }
  rewrite Hrej, app_nil_r, Nat.add_0_r.
  rewrite Kt3, Ke3, Kj3, Kr3, Kt1, Ke1, Kj1, Kr1, Ko3, Ko1, Kp3, Kp1, Ks3.
  repeat split; auto; tauto.
Qed.

(** X14. The initialisation the constructor queued runs once, whatever the
    options and whatever the connection answers: it leaves the store
    [INITIALIZED], resolves every waiter that was queued, each once and
    in the order they came, rejects none and empties the queue; run
    again it does nothing; and a caller who asks afterwards is resolved
    at once, without being queued. *)
Theorem initialization_settles_every_waiter_once (w : World C) :
  init_pending w = true ->
  exists w',
    initialize w = (Ok tt, w') /\
    state w' = INITIALIZED /\
    settlements (trace w') =
      settlements (trace w) ++ map (fun p => (p, Resolved)) (onReadyPromises w) /\
    onReadyPromises w' = [] /\
    initialize w' = (Ok tt, w') /\
    forall p, exists w'',
      onReady p w' = (Ok tt, w'') /\
      settlements (trace w'') = settlements (trace w') ++ [(p, Resolved)] /\
      onReadyPromises w'' = [].
Proof.
  intros Hp.
  destruct (initialize_full w Hp)
    as (w' & E & Hs & _ & Hp' & Hr & _ & Ht & _).
  exists w'. split; [exact E|]. split; [exact Hs|]. split; [exact Ht|].
  split; [exact Hr|]. split.
  - unfold initialize, bind, gets. rewrite Hp'. reflexivity.
  - intros p. unfold onReady, bind, gets. rewrite Hs.
    eexists. split; [reflexivity|]. fields.
    rewrite settlements_app. auto.
Qed.

(** A caller who asks for readiness while the store is not
    [INITIALIZED] (before initialisation, or once it is closed) is
    queued and not settled. *)
Lemma onReady_queues (w : World C) (p : nat) :
  state w <> INITIALIZED ->
  onReady p w = (Ok tt, with_onReadyPromises (onReadyPromises w ++ [p]) w).
Proof.
  intros Hs. unfold onReady, bind, gets, modify.
  destruct (state w); try congruence; reflexivity.
Qed.

(** X15. A store built with an options object never ends the connection
    it was given, whatever [endConnectionOnClose] the caller asked for:
    the setter forces the option to [false], and [close] on the
    initialised store then returns without calling [end()] and leaves
    the store [INITIALIZED], not [CLOSED]. The options have no unknown
    column key. *)
Theorem close_with_options_leaves_connection_open
    (c : C) (clock : Z) (u : Opt.user) :
  (forall k, In k (keys (Opt.user_columnNames u)) ->
     k = "session_id" \/ k = "expires" \/ k = "data") ->
  exists w1 w2 w3,
    constructor (Some u) (Some c) (fresh clock) = (Ok tt, w1) /\
    Opt.endConnectionOnClose (options w1) = false /\
    initialize w1 = (Ok tt, w2) /\
    close w2 = (Ok tt, w3) /\
    ends (trace w3) = 0%nat /\
    state w3 = INITIALIZED.
Proof.
  intros Hknown.
  assert (Hctor : exists w1,
    constructor (Some u) (Some c) (fresh clock) = (Ok tt, w1) /\
    Opt.endConnectionOnClose (options w1) = false /\
    init_pending w1 = true /\ trace w1 = []).
  { unfold constructor, bind at 1, modify at 1. cbv beta iota.
    unfold bind at 1, modify at 1. cbv beta iota.
    unfold bind at 1. rewrite (set_options_accepts _ u Hknown). cbv beta iota.
    unfold bind, modify. cbv beta iota.
    eexists. split; [reflexivity|]. fields. repeat split. }
  destruct Hctor as (w1 & E1 & Ho1 & Hp1 & Ht1).
  destruct (initialize_full w1 Hp1)
    as (w2 & E2 & Hs2 & Ho2 & _ & _ & _ & _ & He2 & _).
  destruct (close_without_end w2) as (w3 & E3 & K3 & _);
    [right; rewrite Ho2; exact Ho1|].
  destruct K3 as (Ks3 & _ & _ & _ & _ & _ & _ & _ & Ke3 & _).
  exists w1, w2, w3. repeat split; try assumption.
  - rewrite Ke3, He2, Ht1. reflexivity.
  - congruence.
Qed.

End Lifecycle.

(** ** A connection that fails *)

Section Failure.
Context `{Runtime}.
Import Unreachable.

(** C2. On a connection that rejects every statement with [e], [set],
    [destroy] and [touch] call back with no error at all, and [get],
    [length] and [all] call back with a [TypeError] of their own making:
    [e] is logged by [query] and reaches no callback. *)
Theorem query_failure_not_handed_to_callback
    (e : error) (w0 : World error) (session_id : string)
    (props : list (string * value)) :
  let w := with_connection (Some e) w0 in
  let not_iterable := [AErr (TypeError "undefined is not iterable")] in
  calls (trace (set session_id (VObj props) w).2) = calls (trace w0) ++ [[]] /\
  calls (trace (destroy session_id true w).2) = calls (trace w0) ++ [[]] /\
  (Opt.disableTouch (options w0) = false ->
   calls (trace (touch session_id (VObj props) w).2) = calls (trace w0) ++ [[]]) /\
  calls (trace (get session_id w).2) = calls (trace w0) ++ [not_iterable] /\
  calls (trace (length w).2) = calls (trace w0) ++ [not_iterable] /\
  calls (trace (all w).2) = calls (trace w0) ++ [not_iterable].
Proof.
  intros w not_iterable. repeat split.
  - unfold set, bind, try_catch, logger_info, emit, modify, gets.
    rewrite payload_expires_eq by reflexivity. cbv beta iota.
    rewrite (@query_eq error down). simpl.
    rewrite !calls_app. simpl. now rewrite !app_nil_r.
  - unfold destroy, bind, try_catch, logger_info, emit, modify, gets.
    cbv beta iota. rewrite (@query_eq error down). simpl.
    rewrite !calls_app. simpl. now rewrite !app_nil_r.
  - intros Hd.
    unfold touch, bind, try_catch, logger_info, emit, modify, gets.
    cbv beta iota. change (options w) with (options w0). rewrite Hd.
    rewrite payload_expires_eq by reflexivity. cbv beta iota.
    rewrite (@query_eq error down). simpl.
    rewrite !calls_app. simpl. now rewrite !app_nil_r.
  - unfold get, bind, try_catch, logger_info, emit, modify, gets.
    cbv beta iota. rewrite (@query_eq error down). simpl.
    rewrite !calls_app. simpl. now rewrite !app_nil_r.
  - unfold length, now_seconds, bind, try_catch, logger_info, emit, modify,
      gets.
    cbv beta iota. rewrite (@query_eq error down). simpl.
    rewrite !calls_app. simpl. now rewrite !app_nil_r.
  - unfold all, now_seconds, bind, try_catch, logger_info, emit, modify, gets.
    cbv beta iota. rewrite (@query_eq error down). simpl.
    rewrite !calls_app. simpl. now rewrite !app_nil_r.
Qed.

(** C3. A store is built with the default options, which ask for the
    table to be created, on a connection that rejects every statement
    with [e]; the callers [ps] wait for it to be ready. Initialisation
    then leaves the store [INITIALIZED] and resolves every waiter: none
    is rejected. *)
Theorem failed_table_creation_still_initializes
    (e : error) (clock : Z) (ps : list nat) :
  exists w',
    (constructor None (Some e) ;; forEach ps onReady ;; initialize)
      (fresh clock) = (Ok tt, w') /\
    state w' = INITIALIZED /\
    settlements (trace w') = map (fun p => (p, Resolved)) ps.
Proof.
  unfold bind at 1.
  change (constructor None (Some e) (fresh clock))
    with (Ok tt, built e clock).
  cbv beta iota. unfold bind at 1.
  destruct (forEach_onReady ps (built e clock)) as (w1 & Heq & Hw1);
    [simpl; congruence|].
  rewrite Heq. cbv beta iota.
  destruct (initialize_spec w1) as (w' & E & Hst & _ & _ & Hs & _);
    [subst w1; reflexivity|].
  exists w'. split; [exact E|]. split; [exact Hst|].
  rewrite Hs. subst w1. reflexivity.
Qed.

End Failure.

(** ** Rows *)

Section Rows.
Context `{Runtime}.
Import RefDB.

Lemma serves_names o t :
  serves o t ->
  Opt.tableName (Opt.schema o) = t_name t /\
  Opt.column o "session_id" = VStr (c_session_id t) /\
  Opt.column o "expires" = VStr (c_expires t) /\
  Opt.column o "data" = VStr (c_data t).
Proof.
  unfold serves, table_of.
  destruct (Opt.column o "session_id"); try discriminate.
  destruct (Opt.column o "expires"); try discriminate.
  destruct (Opt.column o "data"); try discriminate.
  intros [= <-]. simpl. tauto.
Qed.

(** Deciding which statement a text is. *)
Ltac which_statement :=
  unfold run;
  repeat match goal with
  | |- context [String.eqb ?a ?b] =>
      let r := eval vm_compute in (String.eqb a b) in
      match r with
      | true => change (String.eqb a b) with true
      | false => change (String.eqb a b) with false
      end; cbv iota
  end.

Ltac right_names :=
  unfold on_table, names; cbn [forallb fst snd andb];
  rewrite ?String.eqb_refl; cbn [andb].

Lemma run_select_one t id :
  run "SELECT ?? AS data, ?? as expires FROM ?? WHERE ?? = ?"
    [VStr (c_data t); VStr (c_expires t); VStr (t_name t);
     VStr (c_session_id t); VStr id] (Some t) =
  (inr (result_set
          match rows t !! id with
          | Some (e, text) => [VObj [("data", VStr text); ("expires", VNum e)]]
          | None => []
          end), Some t).
Proof.
  which_statement. right_names.
  destruct (rows t !! id) as [[e text]|]; reflexivity.
Qed.

Lemma run_insert t id v text :
  run "INSERT INTO ?? (??, ??, ??) VALUES (?, ?, ?) ON DUPLICATE KEY UPDATE ?? = VALUES(??), ?? = VALUES(??)"
    [VStr (t_name t); VStr (c_session_id t); VStr (c_expires t);
     VStr (c_data t); VStr id; v; VStr text; VStr (c_expires t);
     VStr (c_expires t); VStr (c_data t); VStr (c_data t)] (Some t) =
  match v with
  | VNum e => (inr (header 1), Some (with_rows (<[id := (e, text)]> (rows t)) t))
  | _ => (inl refused, Some t)
  end.
Proof.
  which_statement. destruct v; try reflexivity. right_names. reflexivity.
Qed.

Lemma run_update t id v :
  run "UPDATE ?? SET ?? = ? WHERE ?? = ?"
    [VStr (t_name t); VStr (c_expires t); v; VStr (c_session_id t); VStr id]
    (Some t) =
  match v with
  | VNum e =>
      match rows t !! id with
      | Some (_, text) =>
          (inr (header 1), Some (with_rows (<[id := (e, text)]> (rows t)) t))
      | None => (inr (header 0), Some t)
      end
  | _ => (inl refused, Some t)
  end.
Proof.
  which_statement. destruct v; try reflexivity. right_names.
  destruct (rows t !! id) as [[e text]|]; reflexivity.
Qed.

Lemma run_count t n :
  run "SELECT COUNT(*) FROM ?? WHERE ?? >= ?"
    [VStr (t_name t); VStr (c_expires t); VNum n] (Some t) =
  (inr (result_set
          [VObj [("COUNT(*)", VNum (Z.of_nat (size (live n (rows t)))))]]),
   Some t).
Proof. which_statement. right_names. reflexivity. Qed.

Lemma run_select_live t n :
  run "SELECT * FROM ?? WHERE ?? >= ?"
    [VStr (t_name t); VStr (c_expires t); VNum n] (Some t) =
  (inr (result_set (row_object t <$> map_to_list (live n (rows t)))), Some t).
Proof. which_statement. right_names. reflexivity. Qed.

Lemma run_delete_expired t n :
  run "DELETE FROM ?? WHERE ?? < ?"
    [VStr (t_name t); VStr (c_expires t); VNum n] (Some t) =
  (inr (header 0), Some (with_rows (live n (rows t)) t)).
Proof. which_statement. right_names. reflexivity. Qed.

(** A method body, laid out as the nest of matches it is. *)
Ltac lay_out :=
  unfold callback, logger_info, logger_error, logger_error_val, now_seconds,
    emit, modify, gets, lift, try_catch, bind, ret, throw;
  cbv beta iota; fields.

(** The statement goes to the table [t]. *)
Ltac send Hc :=
  rewrite (@query_eq db mysql); fields; rewrite Hc; cbn [conn_query mysql].

(** C9. [touch] on a session that is stored changes nothing of the
    table but the expiry of that session: its text is the same after as
    before, and so is every other row, whatever the payload and whether
    touch is disabled or not. *)
Theorem touch_changes_only_expires
    (w : World db) (t : table) (session_id : string) (data : value)
    (e0 : Z) (text : string) :
  connection w = Some (Some t) ->
  serves (options w) t ->
  rows t !! session_id = Some (e0, text) ->
  exists r w' t',
    touch session_id data w = (r, w') /\
    connection w' = Some (Some t') /\
    (exists e1, rows t' !! session_id = Some (e1, text)) /\
    (forall id', id' <> session_id -> rows t' !! id' = rows t !! id').
Proof.
  intros Hc Hsv Hrow.
  destruct (serves_names _ _ Hsv) as (Hn & Hi & He & Hd).
  unfold touch, bind at 1, gets at 1. cbv beta iota.
  destruct (Opt.disableTouch (options w)).
  { exists (Ok tt), w, t. eauto. }
  unfold bind at 1, logger_info, emit at 1, modify at 1. cbv beta iota.
  destruct (nullish data) eqn:Hnull.
  { exists (Throw (TypeError
      (if data is VNull then "Cannot read properties of null"
       else "Cannot read properties of undefined"))).
    eexists _, t.
    split; [destruct data; try discriminate; reflexivity|].
    fields. eauto. }
  unfold bind at 1. rewrite payload_expires_eq by exact Hnull.
  lay_out. send Hc. rewrite Hn, Hi, He, run_update.
  destruct (spec_expiry _ _ _); cbn [fst snd];
    try (eexists _, _, t; split; [reflexivity|]; fields; eauto; fail).
  rewrite Hrow. cbn [fst snd].
  eexists _, _, _. split; [reflexivity|]. fields.
  split; [reflexivity|]. simpl. split.
  - eexists. apply lookup_insert_eq.
  - intros id' Hne. now apply lookup_insert_ne.
Qed.

(** C7. For a payload that is not [undefined] or [null], the expiry
    [set] and [touch] hand to the database is the expiry of the
    specification: the cookie's [expires] if it is set, else its
    [_expires] if that is set, else now plus the configured expiration,
    rounded to whole seconds. It is the sixth parameter of the statement
    of [set] and the third of that of [touch]; when it is a number, it
    is the expiry of the row afterwards. *)
Theorem stored_expiry_follows_payload
    (w : World db) (t : table) (session_id : string) (data : value) :
  connection w = Some (Some t) ->
  serves (options w) t ->
  nullish data = false ->
  let expiry := spec_expiry data (now w) (Opt.expiration (options w)) in
  (exists w' t' params,
      set session_id data w = (Ok tt, w') /\
      statements (trace w') =
        statements (trace w)
        ++ [("INSERT INTO ?? (??, ??, ??) VALUES (?, ?, ?) ON DUPLICATE KEY UPDATE ?? = VALUES(??), ?? = VALUES(??)",
             params)] /\
      params !! 5%nat = Some expiry /\
      connection w' = Some (Some t') /\
      forall e, expiry = VNum e ->
        rows t' !! session_id = Some (e, JSON_stringify data)) /\
  (Opt.disableTouch (options w) = false ->
   exists w' t' params,
      touch session_id data w = (Ok tt, w') /\
      statements (trace w') =
        statements (trace w) ++ [("UPDATE ?? SET ?? = ? WHERE ?? = ?", params)] /\
      params !! 2%nat = Some expiry /\
      connection w' = Some (Some t') /\
      forall e, expiry = VNum e ->
        forall e0 text, rows t !! session_id = Some (e0, text) ->
        rows t' !! session_id = Some (e, text)).
Proof.
  intros Hc Hsv Hnull expiry.
  destruct (serves_names _ _ Hsv) as (Hn & Hi & He & Hd).
  split.
  - unfold set, bind at 1, logger_info, emit at 1, modify at 1. cbv beta iota.
    unfold bind at 1. rewrite payload_expires_eq by exact Hnull.
    lay_out. send Hc. rewrite Hn, Hi, He, Hd, run_insert. fold expiry.
    destruct expiry eqn:Hex; cbn [fst snd];
      eexists _, _, _; (split; [reflexivity|]); fields;
      rewrite !statements_app; cbn [statements omap]; rewrite ?app_nil_r;
      (split; [reflexivity|]); (split; [reflexivity|]);
      (split; [reflexivity|]); intros e; try discriminate.
    intros [= <-]. apply lookup_insert_eq.
  - intros Hdis. unfold touch, bind at 1, gets at 1. cbv beta iota.
    rewrite Hdis.
    unfold bind at 1, logger_info, emit at 1, modify at 1. cbv beta iota.
    unfold bind at 1. rewrite payload_expires_eq by exact Hnull.
    lay_out. send Hc. rewrite Hn, Hi, He, run_update. fold expiry.
    destruct expiry eqn:Hex; cbn [fst snd];
      try (eexists _, _, _; (split; [reflexivity|]); fields;
           rewrite !statements_app; cbn [statements omap]; rewrite ?app_nil_r;
           (split; [reflexivity|]); (split; [reflexivity|]);
           (split; [reflexivity|]); intros e; discriminate).
    destruct (rows t !! session_id) as [[e0 text]|] eqn:Hrow; cbn [fst snd];
      eexists _, _, _; (split; [reflexivity|]); fields;
      rewrite !statements_app; cbn [statements omap]; rewrite ?app_nil_r;
      (split; [reflexivity|]); (split; [reflexivity|]);
      (split; [reflexivity|]); intros e [= <-] e0' text'; try discriminate.
    intros [= <- <-]. apply lookup_insert_eq.
Qed.

(** C1. A row is stored by [set] with an expiry that has not passed, and
    [get] is asked for it at once: the statement of [get] finds the row,
    and the callback of [get] is handed [null] alone, as for a session
    that does not exist. The payload is not handed back. *)
Theorem get_after_set_hands_back_nothing
    (w : World db) (t : table) (session_id : string) (data : value) (e : Z) :
  connection w = Some (Some t) ->
  serves (options w) t ->
  nullish data = false ->
  spec_expiry data (now w) (Opt.expiration (options w)) = VNum e ->
  round_div1000 (now w) <= e ->
  exists w1 t1 w2,
    set session_id data w = (Ok tt, w1) /\
    connection w1 = Some (Some t1) /\
    rows t1 !! session_id = Some (e, JSON_stringify data) /\
    get session_id w1 = (Ok tt, w2) /\
    calls (trace w2) = calls (trace w) ++ [[]; [ANull]].
Proof.
  intros Hc Hsv Hnull Hex Hfuture.
  destruct (serves_names _ _ Hsv) as (Hn & Hi & He & Hd).
  assert (Hset : exists w1,
    set session_id data w = (Ok tt, w1) /\
    connection w1 =
      Some (Some (with_rows (<[session_id := (e, JSON_stringify data)]> (rows t)) t)) /\
    options w1 = options w /\
    calls (trace w1) = calls (trace w) ++ [[]]).
  { unfold set, bind at 1, logger_info, emit at 1, modify at 1. cbv beta iota.
    unfold bind at 1. rewrite payload_expires_eq by exact Hnull.
    lay_out. send Hc. rewrite Hn, Hi, He, Hd, run_insert, Hex. cbn [fst snd].
    eexists. split; [reflexivity|]. fields.
    rewrite !calls_app. cbn [calls omap]. rewrite ?app_nil_r. tauto. }
  destruct Hset as (w1 & Eset & Hc1 & Ho1 & Hcalls1).
  exists w1. eexists. 
  assert (Hget : exists w2,
    get session_id w1 = (Ok tt, w2) /\
    calls (trace w2) = calls (trace w1) ++ [[ANull]]).
  { unfold get. lay_out. send Hc1. rewrite Ho1, Hn, Hi, He, Hd.
    set (t1 := with_rows _ t).
    change (c_data t) with (c_data t1).
    change (c_expires t) with (c_expires t1).
    change (c_session_id t) with (c_session_id t1).
    change (t_name t) with (t_name t1).
    rewrite run_select_one. subst t1. cbn [rows with_rows].
    rewrite lookup_insert_eq. cbn [fst snd].
    eexists. split; [reflexivity|]. fields.
    rewrite !calls_app. cbn [calls omap]. now rewrite ?app_nil_r. }
  destruct Hget as (w2 & Eget & Hcalls2).
  exists w2. split; [exact Eset|]. split; [exact Hc1|].
  split; [apply lookup_insert_eq|]. split; [exact Eget|].
  rewrite Hcalls2, Hcalls1, <- app_assoc. reflexivity.
Qed.

(** ** What an assignment makes of the own properties *)

Lemma assign_other (o : object) k v :
  k <> "__proto__" ->
  assign o k v =
    {| obj_proto := obj_proto o; obj_own := obj_set (obj_own o) k v |}.
Proof.
  intros Hk. unfold assign.
  destruct (String.eqb_spec k "__proto__"); [contradiction|reflexivity].
Qed.

Lemma assign_accessor (o : object) v :
  assoc "__proto__" (obj_own o) = None ->
  reaches_accessor (obj_proto o) = true ->
  obj_own (assign o "__proto__" v) = obj_own o.
Proof.
  intros Ho Hr. unfold assign. rewrite String.eqb_refl, Ho, Hr.
  destruct v; reflexivity.
Qed.

(** ** The loop of [all] *)

(** On a row that is an object the function of the loop returns, and
    does no more than log. *)
Lemma all_row_object props sessions (w : World db) :
  exists sessions' w',
    all_row sessions (VObj props) w = (Ok sessions', w') /\
    calls (trace w') = calls (trace w) /\
    statements (trace w') = statements (trace w).
Proof.
  unfold all_row, JSON_parse_. lay_out. cbn [member].
  destruct (from_option id VUndefined (assoc "data" props)) as [| |b|k| |text|d|l|o];
    try (eexists _, _; split; [reflexivity|]; split; reflexivity).
  destruct (JSON_parse text) as [v|]; cbv beta iota.
  - eexists _, _. split; [reflexivity|]. split; reflexivity.
  - eexists _, _. split; [reflexivity|]. fields.
    rewrite !calls_app, !statements_app. cbn [calls statements omap].
    rewrite !app_nil_r. auto.
Qed.

Lemma all_rows_objects (l : list value) : forall sessions (w : World db),
  Forall (fun row => exists props, row = VObj props) l ->
  exists sessions' w',
    all_rows sessions l w = (Ok sessions', w') /\
    calls (trace w') = calls (trace w) /\
    statements (trace w') = statements (trace w).
Proof.
  induction l as [|row l IH]; intros sessions w Hl.
  - exists sessions, w. auto.
  - inversion Hl as [|? ? (props & ->) Hl']; subst.
    cbn [all_rows]. unfold bind.
    destruct (all_row_object props sessions w) as (s1 & w1 & E1 & Hc1 & Hs1).
    rewrite E1.
    destruct (IH s1 w1 Hl') as (s2 & w2 & E2 & Hc2 & Hs2).
    rewrite E2. exists s2, w2. split; [reflexivity|]. split; congruence.
Qed.

Lemma all_row_collect t (kv : string * (Z * string)) sessions (w : World db) :
  default_columns t ->
  exists w',
    all_row sessions (row_object t kv) w = (Ok (collect sessions [kv]), w').
Proof.
  intros (Hi & He & Hd). destruct kv as [k [e text]].
  unfold all_row, row_object. rewrite Hi, He, Hd. cbn [fst snd].
  unfold collect, JSON_parse_. cbn [fold_left fst snd].
  lay_out. cbn [member assoc String.eqb Ascii.eqb Bool.eqb from_option id].
  cbn [ToPropertyKey].
  destruct (JSON_parse text) as [v|]; cbv beta iota;
    eexists; reflexivity.
Qed.

Lemma all_rows_collect t l : forall sessions (w : World db),
  default_columns t ->
  exists w',
    all_rows sessions (row_object t <$> l) w = (Ok (collect sessions l), w').
Proof.
  induction l as [|kv l IH]; intros sessions w Hcols.
  - exists w. reflexivity.
  - cbn [fmap list_fmap all_rows]. unfold bind.
    destruct (all_row_collect t kv sessions w Hcols) as (w1 & E1).
    rewrite E1.
    destruct (IH (collect sessions [kv]) w1 Hcols) as (w2 & E2).
    rewrite E2. exists w2. reflexivity.
Qed.

(** The rows have an id each. Under every id but [__proto__] the object
    holds what the text of the row parses to; the row of the id
    [__proto__] leaves no property: its assignment ends at the accessor
    of [Object.prototype]. *)
Lemma collect_lookup (l : list (string * (Z * string))) :
  NoDup (l.*1) ->
  forall sessions id,
    assoc "__proto__" (obj_own sessions) = None ->
    (In "__proto__" (l.*1) -> reaches_accessor (obj_proto sessions) = true) ->
    assoc id (obj_own (collect sessions l)) =
      if String.eqb id "__proto__" then None
      else
        match (list_to_map l : gmap string (Z * string)) !! id with
        | Some row =>
            match JSON_parse row.2 with
            | Some v => Some v
            | None => assoc id (obj_own sessions)
            end
        | None => assoc id (obj_own sessions)
        end.
Proof.
  induction l as [|[k row] l IH]; intros Hnd sessions id Hown Hacc.
  - cbn [collect fold_left]. destruct (String.eqb_spec id "__proto__") as [->|];
      [exact Hown|reflexivity].
  - apply NoDup_cons in Hnd as [Hk Hnd].
    set (next := match JSON_parse row.2 with
                 | Some v => assign sessions k v
                 | None => sessions
                 end).
    change (collect sessions ((k, row) :: l)) with (collect next l).
    assert (Hnext : assoc "__proto__" (obj_own next) = None).
    { subst next. destruct (JSON_parse row.2) as [v|]; [|exact Hown].
      destruct (decide (k = "__proto__")) as [->|Hne].
      - rewrite assign_accessor; [exact Hown|exact Hown|].
        apply Hacc. left. reflexivity.
      - rewrite assign_other by exact Hne. cbn [obj_own].
        rewrite assoc_obj_set_ne by congruence. exact Hown. }
    assert (Hreach : In "__proto__" (l.*1) ->
                     reaches_accessor (obj_proto next) = true).
    { intros Hin. subst next.
      assert (Hne : k <> "__proto__").
      { intros ->. apply Hk. apply list_elem_of_In. exact Hin. }
      destruct (JSON_parse row.2) as [v|].
      - rewrite assign_other by exact Hne. cbn [obj_proto].
        apply Hacc. right. exact Hin.
      - apply Hacc. right. exact Hin. }
    rewrite (IH Hnd next id Hnext Hreach), list_to_map_cons.
    destruct (String.eqb_spec id "__proto__") as [->|Hid]; [reflexivity|].
    assert (Hstep : assoc id (obj_own next) =
                    if decide (k = id)
                    then match JSON_parse row.2 with
                         | Some v => Some v
                         | None => assoc id (obj_own sessions)
                         end
                    else assoc id (obj_own sessions)).
    { subst next. destruct (decide (k = id)) as [->|Hne].
      - destruct (JSON_parse row.2) as [v|]; [|reflexivity].
        rewrite assign_other by exact Hid. cbn [obj_own].
        apply assoc_obj_set_eq.
      - destruct (JSON_parse row.2) as [v|]; [|reflexivity].
        destruct (decide (k = "__proto__")) as [->|Hkp].
        + rewrite assign_accessor; [reflexivity|exact Hown|].
          apply Hacc. left. reflexivity.
        + rewrite assign_other by exact Hkp. cbn [obj_own].
          apply assoc_obj_set_ne. congruence. }
    destruct (decide (k = id)) as [->|Hne].
    + rewrite lookup_insert_eq, (not_elem_of_list_to_map_1 _ _ Hk).
      cbn [snd]. rewrite Hstep. destruct (JSON_parse row.2); reflexivity.
    + rewrite lookup_insert_ne by exact Hne. now rewrite Hstep.
Qed.

Lemma count_or_zero k :
  (if truthy (VNum k) then VNum k else VNum 0) = VNum k.
Proof. simpl. destruct (Z.eqb_spec k 0) as [->|]; reflexivity. Qed.

(** The rows the reference database answers [SELECT *] with are the
    rows of the table that the [WHERE] clause keeps, each once. *)
Lemma selected_rows t n row :
  In row (row_object t <$> map_to_list (live n (rows t))) <->
  exists id e text,
    rows t !! id = Some (e, text) /\ n <= e /\
    row = row_object t (id, (e, text)).
Proof.
  rewrite <- list_elem_of_In, list_elem_of_fmap. split.
  - intros ([id [e text]] & -> & Hin).
    apply elem_of_map_to_list in Hin. unfold live in Hin.
    apply map_lookup_filter_Some in Hin as [Hrow Hle].
    exists id, e, text. auto.
  - intros (id & e & text & Hrow & Hle & ->).
    exists (id, (e, text)). split; [reflexivity|].
    apply elem_of_map_to_list. unfold live.
    apply map_lookup_filter_Some. auto.
Qed.

(** C8. With [n] the current time in whole seconds: a sweep leaves
    exactly the rows whose expiry is [n] or later, so that it deletes
    those whose expiry is less than [n] and a row expiring at [n] stays;
    [length] hands over the number of rows whose expiry is [n] or later;
    and the statement [all] sends is answered with the rows whose expiry
    is [n] or later, each once and no other, whatever the column names:
    it is from them that the loop of [all] builds the object it hands
    over. Under the default column names that object holds, under the
    id of each such row whose text parses, what it parses to, and
    nothing else; but no property for the id [__proto__]. *)
Theorem expiry_boundary (w : World db) (t : table) :
  connection w = Some (Some t) ->
  serves (options w) t ->
  let n := round_div1000 (now w) in
  (forall id e text,
      live n (rows t) !! id = Some (e, text) <->
      rows t !! id = Some (e, text) /\ n <= e) /\
  (exists r w',
      clearExpiredSessions None w = (Ok r, w') /\
      connection w' = Some (Some (with_rows (live n (rows t)) t))) /\
  (exists w',
      length w = (Ok tt, w') /\
      calls (trace w') =
        calls (trace w)
        ++ [[ANull; AVal (VNum (Z.of_nat (size (live n (rows t)))))]]) /\
  (exists w' selected sessions,
      all w = (Ok tt, w') /\
      statements (trace w') =
        statements (trace w)
        ++ [("SELECT * FROM ?? WHERE ?? >= ?",
             [VStr (t_name t); VStr (c_expires t); VNum n])] /\
      run "SELECT * FROM ?? WHERE ?? >= ?"
        [VStr (t_name t); VStr (c_expires t); VNum n] (Some t) =
        (inr (result_set selected), Some t) /\
      (forall row,
          In row selected <->
          exists id e text,
            rows t !! id = Some (e, text) /\ n <= e /\
            row = row_object t (id, (e, text))) /\
      List.length selected = size (live n (rows t)) /\
      (exists w0 w1 : World db,
          all_rows empty_object selected w0 = (Ok sessions, w1)) /\
      calls (trace w') =
        calls (trace w) ++ [[ANull; AVal (VObj (obj_own sessions))]] /\
      (default_columns t ->
       forall id,
         assoc id (obj_own sessions) =
           if String.eqb id "__proto__" then None
           else live n (rows t) !! id ≫= (fun row => JSON_parse row.2))).
Proof.
  intros Hc Hsv n.
  destruct (serves_names _ _ Hsv) as (Hn & Hi & He & Hd).
  split; [|split; [|split]].
  - intros id e text. unfold live. rewrite map_lookup_filter_Some. reflexivity.
  - unfold clearExpiredSessions. lay_out. cbn [from_option id]. send Hc.
    rewrite Hn, He, run_delete_expired. cbn [fst snd].
    eexists _, _. split; [reflexivity|]. reflexivity.
  - unfold length. lay_out. send Hc.
    rewrite Hn, He, run_count. fold n.
    set (k := Z.of_nat (size (live n (rows t)))).
    cbn -[k truthy Z.of_nat].
    eexists. split; [reflexivity|]. fields.
    rewrite !calls_app. cbn [calls omap]. rewrite ?app_nil_r.
    now rewrite count_or_zero.
  - unfold all. lay_out. send Hc.
    rewrite Hn, He, run_select_live. fold n.
    set (l := map_to_list (live n (rows t))).
    cbn [fst snd destructure_first result_set head from_option id].
    match goal with
    | |- context [all_rows empty_object (row_object t <$> l) ?w0] =>
        destruct (all_rows_objects (row_object t <$> l) empty_object w0)
          as (s1 & w1 & E1 & Hc1 & Hs1);
          [apply Forall_fmap, Forall_forall; intros kv _; eexists; reflexivity|];
        pose (w_sent := w0)
    end.
    rewrite E1. eexists. exists (row_object t <$> l), s1.
    split; [reflexivity|]. fields.
    split.
    { rewrite !statements_app, Hs1. fields.
      rewrite !statements_app. cbn [statements omap]. now rewrite ?app_nil_r. }
    split; [apply run_select_live|].
    split; [intros row; apply selected_rows|].
    split; [subst l; now rewrite length_fmap, length_map_to_list|].
    split; [exists w_sent, w1; exact E1|].
    split.
    { rewrite !calls_app, Hc1. fields.
      rewrite !calls_app. cbn [calls omap]. now rewrite ?app_nil_r. }
    intros Hcols id.
    destruct (all_rows_collect t l empty_object w_sent Hcols) as (w2 & E2).
    subst w_sent. rewrite E1 in E2. injection E2 as -> _.
    subst l. rewrite collect_lookup;
      [|apply NoDup_fst_map_to_list|reflexivity|reflexivity].
    rewrite list_to_map_to_list. cbn [obj_own empty_object assoc].
    destruct (String.eqb id "__proto__"); [reflexivity|].
    destruct (live n (rows t) !! id) as [row|]; simpl; [|reflexivity].
    destruct (JSON_parse row.2); reflexivity.
Qed.

(** ** More statements *)

Lemma run_delete_one t id :
  run "DELETE FROM ?? WHERE ?? = ?"
    [VStr (t_name t); VStr (c_session_id t); VStr id] (Some t) =
  (inr (header 1), Some (with_rows (delete id (rows t)) t)).
Proof. which_statement. right_names. reflexivity. Qed.

Lemma run_delete_all t :
  run "DELETE FROM ??" [VStr (t_name t)] (Some t) =
  (inr (header 0), Some (with_rows ∅ t)).
Proof. which_statement. right_names. reflexivity. Qed.

Lemma run_create d params :
  run create_table_sql params d = create params d.
Proof. which_statement. reflexivity. Qed.

Lemma serves_with_rows o t r : serves o t -> serves o (with_rows r t).
Proof.
  unfold serves, table_of.
  destruct (Opt.column o "session_id"); try discriminate.
  destruct (Opt.column o "expires"); try discriminate.
  destruct (Opt.column o "data"); try discriminate.
  intros [= <-]. reflexivity.
Qed.

(** [set] on the table it means, with an expiry that is a number. *)
Lemma set_served (w : World db) t session_id data e :
  connection w = Some (Some t) ->
  serves (options w) t ->
  nullish data = false ->
  spec_expiry data (now w) (Opt.expiration (options w)) = VNum e ->
  exists w1,
    set session_id data w = (Ok tt, w1) /\
    connection w1 =
      Some (Some (with_rows (<[session_id := (e, JSON_stringify data)]> (rows t)) t)) /\
    options w1 = options w /\ now w1 = now w /\
    calls (trace w1) = calls (trace w) ++ [[]].
Proof.
  intros Hc Hsv Hnull Hex.
  destruct (serves_names _ _ Hsv) as (Hn & Hi & He & Hd).
  unfold set, bind at 1, logger_info, emit at 1, modify at 1. cbv beta iota.
  unfold bind at 1. rewrite payload_expires_eq by exact Hnull.
  lay_out. send Hc. rewrite Hn, Hi, He, Hd, run_insert, Hex. cbn [fst snd].
  eexists. split; [reflexivity|]. fields.
  rewrite !calls_app. cbn [calls omap]. rewrite ?app_nil_r. tauto.
Qed.

Lemma length_served (w : World db) t :
  connection w = Some (Some t) ->
  serves (options w) t ->
  exists w',
    length w = (Ok tt, w') /\
    calls (trace w') =
      calls (trace w)
      ++ [[ANull;
           AVal (VNum (Z.of_nat (size (live (round_div1000 (now w)) (rows t)))))]].
Proof.
  intros Hc Hsv.
  destruct (serves_names _ _ Hsv) as (Hn & Hi & He & Hd).
  unfold length. lay_out. send Hc. rewrite Hn, He, run_count.
  set (k := Z.of_nat (size (live _ (rows t)))).
  cbn -[k truthy Z.of_nat].
  eexists. split; [reflexivity|]. fields.
  rewrite !calls_app. cbn [calls omap]. rewrite ?app_nil_r.
  now rewrite count_or_zero.
Qed.

(** X16. [set] is an upsert: it leaves one row for the session, holding
    the new expiry and the text of the payload, and every other row as
    it was; said twice with the same payload at the same time, it leaves
    the table as said once, and calls back once each time. *)
Theorem set_twice_is_set_once
    (w : World db) (t : table) (session_id : string) (data : value) (e : Z) :
  connection w = Some (Some t) ->
  serves (options w) t ->
  nullish data = false ->
  spec_expiry data (now w) (Opt.expiration (options w)) = VNum e ->
  exists w1 w2 t1,
    set session_id data w = (Ok tt, w1) /\
    connection w1 = Some (Some t1) /\
    rows t1 = <[session_id := (e, JSON_stringify data)]> (rows t) /\
    (forall id', id' <> session_id -> rows t1 !! id' = rows t !! id') /\
    set session_id data w1 = (Ok tt, w2) /\
    connection w2 = Some (Some t1) /\
    calls (trace w2) = calls (trace w) ++ [[]; []].
Proof.
  intros Hc Hsv Hnull Hex.
  destruct (set_served w t session_id data e Hc Hsv Hnull Hex)
    as (w1 & E1 & Hc1 & Ho1 & Hn1 & Hcalls1).
  set (t1 := with_rows (<[session_id := (e, JSON_stringify data)]> (rows t)) t)
    in *.
  destruct (set_served w1 t1 session_id data e Hc1) as (w2 & E2 & Hc2 & _ & _ & Hcalls2).
  { rewrite Ho1. now apply serves_with_rows. }
  { exact Hnull. }
  { now rewrite Ho1, Hn1. }
  exists w1, w2, t1. split; [exact E1|]. split; [exact Hc1|].
  split; [reflexivity|]. split.
  { intros id' Hne. subst t1. cbn [rows with_rows].
    now apply lookup_insert_ne. }
  split; [exact E2|]. split.
  - rewrite Hc2. subst t1. cbn [rows with_rows with_rows].
    unfold with_rows. cbn. now rewrite insert_insert_eq.
  - rewrite Hcalls2, Hcalls1, <- app_assoc. reflexivity.
Qed.

Lemma live_insert n (r : gmap string (Z * string)) id e text :
  n <= e -> live n (<[id := (e, text)]> r) = <[id := (e, text)]> (live n r).
Proof. intros Hle. unfold live. now apply map_filter_insert_True. Qed.

(** X17. Storing a session that was not there, with an expiry that has not
    passed, makes [length] count one more. *)
Theorem length_counts_new_session
    (w : World db) (t : table) (session_id : string) (data : value) (e : Z) :
  connection w = Some (Some t) ->
  serves (options w) t ->
  nullish data = false ->
  spec_expiry data (now w) (Opt.expiration (options w)) = VNum e ->
  rows t !! session_id = None ->
  round_div1000 (now w) <= e ->
  exists w0 w1 w2 (before : nat),
    length w = (Ok tt, w0) /\
    calls (trace w0) = calls (trace w) ++ [[ANull; AVal (VNum (Z.of_nat before))]] /\
    set session_id data w = (Ok tt, w1) /\
    length w1 = (Ok tt, w2) /\
    calls (trace w2) =
      calls (trace w1) ++ [[ANull; AVal (VNum (Z.of_nat (S before)))]].
Proof.
  intros Hc Hsv Hnull Hex Hnew Hfuture.
  destruct (length_served w t Hc Hsv) as (w0 & E0 & Hcalls0).
  destruct (set_served w t session_id data e Hc Hsv Hnull Hex)
    as (w1 & E1 & Hc1 & Ho1 & Hn1 & _).
  destruct (length_served w1 _ Hc1) as (w2 & E2 & Hcalls2).
  { rewrite Ho1. now apply serves_with_rows. }
  exists w0, w1, w2, (size (live (round_div1000 (now w)) (rows t))).
  split; [exact E0|]. split; [exact Hcalls0|]. split; [exact E1|].
  split; [exact E2|]. rewrite Hcalls2, Hn1. cbn [rows with_rows].
  rewrite (live_insert _ _ _ _ _ Hfuture), map_size_insert_None; [reflexivity|].
  unfold live. apply map_lookup_filter_None. left. exact Hnew.
Qed.

(** X18. [destroy] deletes the row of the session and no other, and calls
    back once with no error when a callback is supplied; a session that
    is not stored is destroyed just as well. *)
Theorem destroy_removes_the_row
    (w : World db) (t : table) (session_id : string) (has_callback : bool) :
  connection w = Some (Some t) ->
  serves (options w) t ->
  exists w' t',
    destroy session_id has_callback w = (Ok tt, w') /\
    connection w' = Some (Some t') /\
    rows t' !! session_id = None /\
    (forall id', id' <> session_id -> rows t' !! id' = rows t !! id') /\
    calls (trace w') = calls (trace w) ++ (if has_callback then [[]] else []).
Proof.
  intros Hc Hsv.
  destruct (serves_names _ _ Hsv) as (Hn & Hi & He & Hd).
  unfold destroy. lay_out. send Hc. rewrite Hn, Hi, run_delete_one.
  cbn [fst snd].
  destruct has_callback; cbv beta iota;
    eexists _, _; (split; [reflexivity|]); fields;
    (split; [reflexivity|]); cbn [rows with_rows];
    (split; [apply lookup_delete_eq|]);
    (split; [intros id' Hne; now apply lookup_delete_ne|]);
    rewrite !calls_app; cbn [calls omap]; now rewrite ?app_nil_r.
Qed.

(** X19. [clear] deletes every row of the table. *)
Theorem clear_deletes_every_row
    (w : World db) (t : table) (has_callback : bool) :
  connection w = Some (Some t) ->
  serves (options w) t ->
  exists w' t',
    clear has_callback w = (Ok tt, w') /\
    connection w' = Some (Some t') /\
    rows t' = ∅.
Proof.
  intros Hc Hsv.
  destruct (serves_names _ _ Hsv) as (Hn & Hi & He & Hd).
  unfold clear, spawn. lay_out. send Hc. rewrite Hn, run_delete_all.
  cbn [fst snd]. eexists _, _. split; [reflexivity|]. fields.
  split; reflexivity.
Qed.

(** X20. [touch] on a session that is not stored creates no row and
    changes none, and still calls back with no error: the caller cannot
    tell it from a touch that took effect. *)
Theorem touch_of_unknown_session_reports_success
    (w : World db) (t : table) (session_id : string) (data : value) :
  connection w = Some (Some t) ->
  serves (options w) t ->
  Opt.disableTouch (options w) = false ->
  nullish data = false ->
  rows t !! session_id = None ->
  exists w',
    touch session_id data w = (Ok tt, w') /\
    connection w' = Some (Some t) /\
    calls (trace w') = calls (trace w) ++ [[]].
Proof.
  intros Hc Hsv Hdis Hnull Hrow.
  destruct (serves_names _ _ Hsv) as (Hn & Hi & He & Hd).
  unfold touch, bind at 1, gets at 1. cbv beta iota. rewrite Hdis.
  unfold bind at 1, logger_info, emit at 1, modify at 1. cbv beta iota.
  unfold bind at 1. rewrite payload_expires_eq by exact Hnull.
  lay_out. send Hc. rewrite Hn, Hi, He, run_update, Hrow.
  destruct (spec_expiry _ _ _); cbn [fst snd];
    (eexists; split; [reflexivity|]); fields;
    rewrite !calls_app; cbn [calls omap]; rewrite ?app_nil_r; auto.
Qed.

(** X21. On a database with no table, [createDatabaseTable] creates the
    table the options name, with the three configured column names and
    no row: the table the other statements of the store mean. The three
    column names differ. *)
Theorem createDatabaseTable_creates_the_table (w : World db) (t : table) :
  connection w = Some None ->
  table_of (options w) ∅ = Some t ->
  c_session_id t <> c_expires t ->
  c_session_id t <> c_data t ->
  c_expires t <> c_data t ->
  exists r w',
    createDatabaseTable w = (Ok (Some r), w') /\
    connection w' = Some (Some t) /\
    serves (options w') t /\
    rows t = ∅.
Proof.
  intros Hc Ht H1 H2 H3.
  assert (Hrows : rows t = ∅).
  { revert Ht. unfold table_of.
    destruct (Opt.column _ "session_id"); try discriminate.
    destruct (Opt.column _ "expires"); try discriminate.
    destruct (Opt.column _ "data"); try discriminate.
    now intros [= <-]. }
  assert (Hsv : serves (options w) t) by (unfold serves; now rewrite Hrows).
  destruct (serves_names _ _ Hsv) as (Hn & Hi & He & Hd).
  unfold createDatabaseTable. lay_out. send Hc.
  rewrite Hn, Hi, He, Hd, run_create. cbn [create].
  destruct (String.eqb_spec (c_session_id t) (c_expires t)); [contradiction|].
  destruct (String.eqb_spec (c_session_id t) (c_data t)); [contradiction|].
  destruct (String.eqb_spec (c_expires t) (c_data t)); [contradiction|].
  rewrite String.eqb_refl. cbn [negb andb fst snd].
  eexists _, _. split; [reflexivity|]. fields.
  split; [|split; [exact Hsv|exact Hrows]].
  destruct t as [tn ci ce cd r]. cbn in *. now subst r.
Qed.

Lemma create_existing tn a b c d t :
  create [VStr tn; a; b; c; d] (Some t) =
    if String.eqb tn (t_name t) then (inr (header 0), Some t)
    else (inl refused, Some t).
Proof. destruct a, b, c, d; reflexivity. Qed.

(** X22. On a database that has a table of the configured name,
    [createDatabaseTable] changes nothing, rows and column names
    included, whatever column names the options give, and reports
    success. *)
Theorem createDatabaseTable_keeps_existing_table (w : World db) (t : table) :
  connection w = Some (Some t) ->
  Opt.tableName (Opt.schema (options w)) = t_name t ->
  exists r w',
    createDatabaseTable w = (Ok (Some r), w') /\
    connection w' = Some (Some t).
Proof.
  intros Hc Hn.
  unfold createDatabaseTable. lay_out. send Hc.
  rewrite Hn, run_create, create_existing, String.eqb_refl.
  cbn [fst snd]. eexists _, _. split; reflexivity.
Qed.

(** ** [all] under other column names *)

(** A row that has no property [session_id] is filed under the key
    [undefined], or left out. *)
Lemma all_row_lost props sessions (w : World db) :
  assoc "session_id" props = None ->
  exists sessions' w',
    all_row sessions (VObj props) w = (Ok sessions', w') /\
    calls (trace w') = calls (trace w) /\
    (sessions' = sessions \/ exists v, sessions' = assign sessions "undefined" v).
Proof.
  intros Hid. unfold all_row, JSON_parse_. lay_out. cbn [member].
  rewrite Hid. cbn [from_option id ToPropertyKey].
  destruct (from_option id VUndefined (assoc "data" props)) as [| |b|n| |text|d|l|o];
    try (eexists _, _; split; [reflexivity|]; split; [reflexivity|]; eauto; fail).
  destruct (JSON_parse text) as [v|]; cbv beta iota.
  - eexists _, _. split; [reflexivity|]. split; [reflexivity|]. eauto.
  - eexists _, _. split; [reflexivity|]. fields.
    rewrite !calls_app. cbn [calls omap]. rewrite !app_nil_r. auto.
Qed.

Lemma all_rows_lost (l : list value) : forall sessions (w : World db),
  Forall (fun row => exists props,
            row = VObj props /\ assoc "session_id" props = None) l ->
  (forall k, k <> "undefined" -> assoc k (obj_own sessions) = None) ->
  exists sessions' w',
    all_rows sessions l w = (Ok sessions', w') /\
    calls (trace w') = calls (trace w) /\
    (forall k, k <> "undefined" -> assoc k (obj_own sessions') = None).
Proof.
  induction l as [|row l IH]; intros sessions w Hl Hs.
  - exists sessions, w. auto.
  - inversion Hl as [|? ? (props & -> & Hid) Hl']; subst.
    cbn [all_rows]. unfold bind.
    destruct (all_row_lost props sessions w Hid) as (s1 & w1 & E1 & Hc1 & Hs1).
    rewrite E1.
    destruct (IH s1 w1 Hl') as (s2 & w2 & E2 & Hc2 & Hs2).
    { intros k Hk. destruct Hs1 as [->|[v ->]]; [auto|].
      rewrite assign_other by discriminate. cbn [obj_own].
      rewrite assoc_obj_set_ne by exact Hk. auto. }
    rewrite E2. exists s2, w2. split; [reflexivity|].
    split; [congruence|exact Hs2].
Qed.

(** X23. When no column of the table is named [session_id] (the session
    id column was given another name), [all] reads the id of every row
    as [undefined]: it calls back with no error and an object in which
    no session can be found under its id, the only key it can hold
    being [undefined]. *)
Theorem all_loses_ids_under_custom_column_name (w : World db) (t : table) :
  connection w = Some (Some t) ->
  serves (options w) t ->
  c_session_id t <> "session_id" ->
  c_expires t <> "session_id" ->
  c_data t <> "session_id" ->
  exists w' sessions,
    all w = (Ok tt, w') /\
    calls (trace w') = calls (trace w) ++ [[ANull; AVal (VObj sessions)]] /\
    forall k, k <> "undefined" -> assoc k sessions = None.
Proof.
  intros Hc Hsv H1 H2 H3.
  destruct (serves_names _ _ Hsv) as (Hn & Hi & He & Hd).
  unfold all. lay_out. send Hc. rewrite Hn, He, run_select_live.
  set (l := map_to_list (live _ (rows t))).
  cbn [fst snd destructure_first result_set head from_option id].
  match goal with
  | |- context [all_rows empty_object (row_object t <$> l) ?w0] =>
      destruct (all_rows_lost (row_object t <$> l) empty_object w0)
        as (s1 & w1 & E1 & Hc1 & Hs1)
  end.
  { apply Forall_fmap, Forall_forall. intros kv _. eexists. split; [reflexivity|].
    cbn [assoc].
    destruct (String.eqb_spec "session_id" (c_session_id t)); [congruence|].
    destruct (String.eqb_spec "session_id" (c_expires t)); [congruence|].
    destruct (String.eqb_spec "session_id" (c_data t)); [congruence|].
    reflexivity. }
  { reflexivity. }
  rewrite E1. eexists _, _. split; [reflexivity|]. fields.
  rewrite !calls_app, Hc1. fields.
  rewrite !calls_app. cbn [calls omap]. rewrite ?app_nil_r.
  split; [reflexivity|exact Hs1].
Qed.

End Rows.

(** ** The properties, tried *)

Import RefDB.
#[local] Existing Instance sample_runtime.



Lemma unknown_column_rejected_witness :
  In "bogus" (keys (Opt.user_columnNames bogus_options)) /\
  "bogus" <> "session_id" /\ "bogus" <> "expires" /\ "bogus" <> "data" /\
  (exists msg w',
      set_options bogus_options (fresh (C:=db) 0) = (Throw (Error msg), w') /\
      statements (trace w') = statements (trace (fresh (C:=db) 0))) /\
  (exists msg w',
      constructor (Some bogus_options) (Some None) (fresh (C:=db) 0) =
        (Throw (Error msg), w') /\
      statements (trace w') = statements (trace (fresh (C:=db) 0)) /\
      init_pending w' = init_pending (fresh (C:=db) 0)).
Proof.
  split; [left; reflexivity|].
  split; [discriminate|]. split; [discriminate|]. split; [discriminate|].
  apply (unknown_column_rejected_before_any_query
           (fresh (C:=db) 0) bogus_options "bogus" None);
    [left; reflexivity|discriminate|discriminate|discriminate].
Defined.

Lemma setter_keeps_rejected_options_witness :
  In "bogus" (keys (Opt.user_columnNames bogus_options)) /\
  "bogus" <> "session_id" /\ "bogus" <> "expires" /\ "bogus" <> "data" /\
  exists e w',
    set_options bogus_options sample_world = (Throw e, w') /\
    options w' =
      Opt.merge (bool_decide (is_Some (connection sample_world))) bogus_options /\
    In "bogus" (keys (Opt.columnNames (Opt.schema (options w')))) /\
    (valid (options sample_world) -> options w' <> options sample_world).
Proof.
  split; [left; reflexivity|].
  split; [discriminate|]. split; [discriminate|]. split; [discriminate|].
  apply (setter_keeps_rejected_options sample_world bogus_options "bogus");
    [left; reflexivity|discriminate|discriminate|discriminate].
Defined.

Lemma touch_changes_only_expires_witness :
  connection sample_world = Some (Some sample_table) /\
  serves (options sample_world) sample_table /\
  rows sample_table !! "abc" = Some (5000, "{}") /\
  exists r w' t',
    touch "abc" dated_payload sample_world = (r, w') /\
    connection w' = Some (Some t') /\
    (exists e1, rows t' !! "abc" = Some (e1, "{}")) /\
    (forall id', id' <> "abc" -> rows t' !! id' = rows sample_table !! id').
Proof.
  split; [reflexivity|]. split; [reflexivity|].
  split; [vm_compute; reflexivity|].
  apply (touch_changes_only_expires sample_world sample_table "abc"
           dated_payload 5000 "{}");
    [reflexivity|reflexivity|vm_compute; reflexivity].
Defined.

Lemma stored_expiry_follows_payload_witness :
  connection sample_world = Some (Some sample_table) /\
  serves (options sample_world) sample_table /\
  nullish dated_payload = false /\
  spec_expiry dated_payload (now sample_world)
    (Opt.expiration (options sample_world)) = VNum 7200 /\
  (exists w' t' params,
      set "abc" dated_payload sample_world = (Ok tt, w') /\
      statements (trace w') =
        statements (trace sample_world)
        ++ [("INSERT INTO ?? (??, ??, ??) VALUES (?, ?, ?) ON DUPLICATE KEY UPDATE ?? = VALUES(??), ?? = VALUES(??)",
             params)] /\
      params !! 5%nat = Some (VNum 7200) /\
      connection w' = Some (Some t') /\
      forall e, VNum 7200 = VNum e ->
        rows t' !! "abc" = Some (e, JSON_stringify dated_payload)) /\
  (Opt.disableTouch (options sample_world) = false ->
   exists w' t' params,
      touch "abc" dated_payload sample_world = (Ok tt, w') /\
      statements (trace w') =
        statements (trace sample_world)
        ++ [("UPDATE ?? SET ?? = ? WHERE ?? = ?", params)] /\
      params !! 2%nat = Some (VNum 7200) /\
      connection w' = Some (Some t') /\
      forall e, VNum 7200 = VNum e ->
        forall e0 text, rows sample_table !! "abc" = Some (e0, text) ->
        rows t' !! "abc" = Some (e, text)).
Proof.
  split; [reflexivity|]. split; [reflexivity|]. split; [reflexivity|].
  split; [reflexivity|].
  apply (stored_expiry_follows_payload sample_world sample_table "abc"
           dated_payload); reflexivity.
Defined.

Lemma get_after_set_witness :
  connection sample_world = Some (Some sample_table) /\
  serves (options sample_world) sample_table /\
  nullish (VObj []) = false /\
  spec_expiry (VObj []) (now sample_world)
    (Opt.expiration (options sample_world)) = VNum 5185000 /\
  round_div1000 (now sample_world) <= 5185000 /\
  exists w1 t1 w2,
    set "abc" (VObj []) sample_world = (Ok tt, w1) /\
    connection w1 = Some (Some t1) /\
    rows t1 !! "abc" = Some (5185000, JSON_stringify (VObj [])) /\
    get "abc" w1 = (Ok tt, w2) /\
    calls (trace w2) = calls (trace sample_world) ++ [[]; [ANull]].
Proof.
  split; [reflexivity|]. split; [reflexivity|]. split; [reflexivity|].
  split; [reflexivity|]. split; [vm_compute; discriminate|].
  apply (get_after_set_hands_back_nothing sample_world sample_table "abc"
           (VObj []) 5185000);
    [reflexivity|reflexivity|reflexivity|reflexivity|vm_compute; discriminate].
Defined.

Lemma expiry_boundary_witness :
  connection boundary_world = Some (Some boundary_table) /\
  serves (options boundary_world) boundary_table /\
  round_div1000 (now boundary_world) = 1000 /\
  live 1000 (rows boundary_table) !! "old" = None /\
  live 1000 (rows boundary_table) !! "edge" = Some (1000, "{}") /\
  live 1000 (rows boundary_table) !! "young" = Some (1001, "{}") /\
  size (live 1000 (rows boundary_table)) = 2%nat /\
  calls (trace (all boundary_world).2) =
    [[ANull; AVal (VObj [("edge", VObj []); ("young", VObj [])])]] /\
  (forall id e text,
      live 1000 (rows boundary_table) !! id = Some (e, text) <->
      rows boundary_table !! id = Some (e, text) /\ 1000 <= e) /\
  (exists r w',
      clearExpiredSessions None boundary_world = (Ok r, w') /\
      connection w' =
        Some (Some (with_rows (live 1000 (rows boundary_table)) boundary_table))) /\
  (exists w',
      length boundary_world = (Ok tt, w') /\
      calls (trace w') =
        calls (trace boundary_world)
        ++ [[ANull;
             AVal (VNum (Z.of_nat (size (live 1000 (rows boundary_table)))))]]) /\
  (exists w' selected sessions,
      all boundary_world = (Ok tt, w') /\
      statements (trace w') =
        statements (trace boundary_world)
        ++ [("SELECT * FROM ?? WHERE ?? >= ?",
             [VStr (t_name boundary_table); VStr (c_expires boundary_table);
              VNum 1000])] /\
      run "SELECT * FROM ?? WHERE ?? >= ?"
        [VStr (t_name boundary_table); VStr (c_expires boundary_table);
         VNum 1000] (Some boundary_table) =
        (inr (result_set selected), Some boundary_table) /\
      (forall row,
          In row selected <->
          exists id e text,
            rows boundary_table !! id = Some (e, text) /\ 1000 <= e /\
            row = row_object boundary_table (id, (e, text))) /\
      List.length selected = size (live 1000 (rows boundary_table)) /\
      (exists w0 w1 : World db,
          all_rows empty_object selected w0 = (Ok sessions, w1)) /\
      calls (trace w') =
        calls (trace boundary_world)
        ++ [[ANull; AVal (VObj (obj_own sessions))]] /\
      (default_columns boundary_table ->
       forall id,
         assoc id (obj_own sessions) =
           if String.eqb id "__proto__" then None
           else live 1000 (rows boundary_table) !! id
                ≫= (fun row => JSON_parse row.2))).
Proof.
  split; [reflexivity|]. split; [reflexivity|]. split; [reflexivity|].
  split; [vm_compute; reflexivity|]. split; [vm_compute; reflexivity|].
  split; [vm_compute; reflexivity|]. split; [vm_compute; reflexivity|].
  split; [vm_compute; reflexivity|].
  exact (expiry_boundary boundary_world boundary_table eq_refl eq_refl).
Defined.

Lemma setter_accepts_known_columns_witness :
  (forall k, In k (keys (Opt.user_columnNames renamed_options)) ->
     k = "session_id" \/ k = "expires" \/ k = "data") /\
  set_options renamed_options sample_world =
    (Ok tt,
     with_options
       (Opt.merge (bool_decide (is_Some (connection sample_world)))
          renamed_options) sample_world).
Proof.
  assert (Hk : forall k, In k (keys (Opt.user_columnNames renamed_options)) ->
                 k = "session_id" \/ k = "expires" \/ k = "data").
  { intros k Hk. simpl in Hk. destruct Hk as [<-|[<-|[]]]; auto. }
  split; [exact Hk|].
  apply (setter_accepts_known_columns sample_world renamed_options Hk).
Defined.

Lemma merge_keeps_unspecified_columns_witness :
  List.NoDup (keys (Opt.user_columnNames renamed_options)) /\
  Opt.column (Opt.merge true renamed_options) "data" =
    match assoc "data" (Opt.user_columnNames renamed_options) with
    | Some name => VStr name
    | None => Opt.column Opt.defaultOptions "data"
    end.
Proof.
  assert (Hn : List.NoDup (keys (Opt.user_columnNames renamed_options))).
  { simpl. constructor; [intros [E|[]]; discriminate E|].
    constructor; [intros []|constructor]. }
  split; [exact Hn|].
  apply (merge_keeps_unspecified_columns true renamed_options "data" Hn).
Defined.

Lemma nullish_payload_throws_witness :
  nullish VNull = true /\
  (exists msg w',
      set "abc" VNull sample_world = (Throw (TypeError msg), w') /\
      statements (trace w') = statements (trace sample_world) /\
      calls (trace w') = calls (trace sample_world)) /\
  (Opt.disableTouch (options sample_world) = false ->
   exists msg w',
      touch "abc" VNull sample_world = (Throw (TypeError msg), w') /\
      statements (trace w') = statements (trace sample_world) /\
      calls (trace w') = calls (trace sample_world)).
Proof.
  split; [reflexivity|].
  apply (nullish_payload_throws_before_callback sample_world "abc" VNull).
  reflexivity.
Defined.

Lemma default_expiry_is_not_expired_witness :
  nullish (VObj []) = false /\
  truthy (field (field (VObj []) "cookie") "expires") = false /\
  truthy (field (field (VObj []) "cookie") "_expires") = false /\
  0 <= Opt.expiration (options sample_world) /\
  Z.abs (now sample_world + Opt.expiration (options sample_world))
    <= 8640000000000000 /\
  exists e,
    payload_expires (VObj []) sample_world = (Ok (VNum e), sample_world) /\
    round_div1000 (now sample_world) <= e /\
    now sample_world + Opt.expiration (options sample_world) - 500 < 1000 * e
      <= now sample_world + Opt.expiration (options sample_world) + 500.
Proof.
  split; [reflexivity|]. split; [reflexivity|]. split; [reflexivity|].
  split; [vm_compute; discriminate|]. split; [vm_compute; discriminate|].
  apply (default_expiry_is_not_expired sample_world (VObj []));
    [reflexivity|reflexivity|reflexivity
    |vm_compute; discriminate|vm_compute; discriminate].
Defined.

Lemma out_of_range_expiry_is_NaN_witness :
  nullish (VObj []) = false /\
  truthy (field (field (VObj []) "cookie") "expires") = false /\
  truthy (field (field (VObj []) "cookie") "_expires") = false /\
  8640000000000000 < Z.abs (now far_world + Opt.expiration (options far_world)) /\
  payload_expires (VObj []) far_world = (Ok VNaN, far_world).
Proof.
  split; [reflexivity|]. split; [reflexivity|]. split; [reflexivity|].
  split; [vm_compute; reflexivity|].
  apply (out_of_range_expiry_is_NaN far_world (VObj []));
    [reflexivity|reflexivity|reflexivity|vm_compute; reflexivity].
Defined.

Lemma rearming_leaves_one_timer_witness :
  armed_once armed_world /\
  exists w',
    setExpirationInterval (Some 60000) armed_world = (Ok tt, w') /\
    timers w' =
      [(timer_seq armed_world,
        (default (Opt.checkExpirationInterval (options armed_world))
           (Some 60000),
         options armed_world))] /\
    expirationInterval w' = Some (timer_seq armed_world) /\
    armed_once w' /\
    rest_kept armed_world w'.
Proof.
  assert (Ha : armed_once armed_world)
    by (exists 900000, Opt.defaultOptions; reflexivity).
  split; [exact Ha|].
  apply (rearming_leaves_one_timer (Some 60000) armed_world Ha).
Defined.

Lemma timer_sweeps_with_armed_options_witness :
  List.find (fun tm => Nat.eqb tm.1 0) (timers armed_world) =
    Some (0%nat, (900000, Opt.defaultOptions)) /\
  is_Some (connection armed_world) /\
  Opt.column (options armed_world) "expires" = VStr "until" /\
  exists w',
    interval_fires 0 armed_world = (Ok tt, w') /\
    statements (trace w') =
      statements (trace armed_world)
      ++ [("DELETE FROM ?? WHERE ?? < ?",
           [VStr "sessions"; VStr "expires";
            VNum (round_div1000 (now armed_world))])] /\
    io_only armed_world w'.
Proof.
  assert (Hc : is_Some (connection armed_world))
    by (exists (Some sample_table); reflexivity).
  split; [reflexivity|]. split; [exact Hc|]. split; [reflexivity|].
  apply (timer_sweeps_with_armed_options armed_world 0 0 900000
           Opt.defaultOptions eq_refl Hc).
Defined.

Lemma close_ends_connection_once_witness :
  state sample_world = INITIALIZED /\
  is_Some (connection sample_world) /\
  Opt.endConnectionOnClose (options sample_world) = true /\
  exists r w1 w2,
    close sample_world = (r, w1) /\ state w1 = CLOSED /\
    close w1 = (Ok tt, w2) /\ state w2 = CLOSED /\
    ends (trace w2) = S (ends (trace sample_world)).
Proof.
  assert (Hc : is_Some (connection sample_world))
    by (exists (Some sample_table); reflexivity).
  split; [reflexivity|]. split; [exact Hc|]. split; [reflexivity|].
  apply (close_ends_connection_once sample_world eq_refl Hc eq_refl).
Defined.

Lemma initialization_settles_every_waiter_once_witness :
  init_pending waiting_world = true /\
  exists w',
    initialize waiting_world = (Ok tt, w') /\
    state w' = INITIALIZED /\
    settlements (trace w') =
      settlements (trace waiting_world)
      ++ map (fun p => (p, Resolved)) (onReadyPromises waiting_world) /\
    onReadyPromises w' = [] /\
    initialize w' = (Ok tt, w') /\
    forall p, exists w'',
      onReady p w' = (Ok tt, w'') /\
      settlements (trace w'') = settlements (trace w') ++ [(p, Resolved)] /\
      onReadyPromises w'' = [].
Proof.
  split; [reflexivity|].
  apply (initialization_settles_every_waiter_once waiting_world eq_refl).
Defined.

Lemma close_with_options_leaves_connection_open_witness :
  (forall k, In k (keys (Opt.user_columnNames renamed_options)) ->
     k = "session_id" \/ k = "expires" \/ k = "data") /\
  exists w1 w2 w3,
    constructor (Some renamed_options) (Some (Some renamed_table))
      (fresh 1000000) = (Ok tt, w1) /\
    Opt.endConnectionOnClose (options w1) = false /\
    initialize w1 = (Ok tt, w2) /\
    close w2 = (Ok tt, w3) /\
    ends (trace w3) = 0%nat /\
    state w3 = INITIALIZED.
Proof.
  assert (Hk : forall k, In k (keys (Opt.user_columnNames renamed_options)) ->
                 k = "session_id" \/ k = "expires" \/ k = "data").
  { intros k Hk. simpl in Hk. destruct Hk as [<-|[<-|[]]]; auto. }
  split; [exact Hk|].
  apply (close_with_options_leaves_connection_open (Some renamed_table)
           1000000 renamed_options Hk).
Defined.

Lemma set_twice_is_set_once_witness :
  connection sample_world = Some (Some sample_table) /\
  serves (options sample_world) sample_table /\
  nullish dated_payload = false /\
  spec_expiry dated_payload (now sample_world)
    (Opt.expiration (options sample_world)) = VNum 7200 /\
  exists w1 w2 t1,
    set "abc" dated_payload sample_world = (Ok tt, w1) /\
    connection w1 = Some (Some t1) /\
    rows t1 = <[ "abc" := (7200, JSON_stringify dated_payload) ]> (rows sample_table) /\
    (forall id', id' <> "abc" -> rows t1 !! id' = rows sample_table !! id') /\
    set "abc" dated_payload w1 = (Ok tt, w2) /\
    connection w2 = Some (Some t1) /\
    calls (trace w2) = calls (trace sample_world) ++ [[]; []].
Proof.
  split; [reflexivity|]. split; [reflexivity|]. split; [reflexivity|].
  split; [reflexivity|].
  apply (set_twice_is_set_once sample_world sample_table "abc" dated_payload
           7200); reflexivity.
Defined.

Lemma length_counts_new_session_witness :
  connection sample_world = Some (Some sample_table) /\
  serves (options sample_world) sample_table /\
  nullish dated_payload = false /\
  spec_expiry dated_payload (now sample_world)
    (Opt.expiration (options sample_world)) = VNum 7200 /\
  rows sample_table !! "new" = None /\
  round_div1000 (now sample_world) <= 7200 /\
  exists w0 w1 w2 (before : nat),
    length sample_world = (Ok tt, w0) /\
    calls (trace w0) =
      calls (trace sample_world) ++ [[ANull; AVal (VNum (Z.of_nat before))]] /\
    set "new" dated_payload sample_world = (Ok tt, w1) /\
    length w1 = (Ok tt, w2) /\
    calls (trace w2) =
      calls (trace w1) ++ [[ANull; AVal (VNum (Z.of_nat (S before)))]].
Proof.
  split; [reflexivity|]. split; [reflexivity|]. split; [reflexivity|].
  split; [reflexivity|]. split; [vm_compute; reflexivity|].
  split; [vm_compute; discriminate|].
  apply (length_counts_new_session sample_world sample_table "new"
           dated_payload 7200);
    [reflexivity|reflexivity|reflexivity|reflexivity
    |vm_compute; reflexivity|vm_compute; discriminate].
Defined.

Lemma destroy_removes_the_row_witness :
  connection sample_world = Some (Some sample_table) /\
  serves (options sample_world) sample_table /\
  exists w' t',
    destroy "abc" true sample_world = (Ok tt, w') /\
    connection w' = Some (Some t') /\
    rows t' !! "abc" = None /\
    (forall id', id' <> "abc" -> rows t' !! id' = rows sample_table !! id') /\
    calls (trace w') = calls (trace sample_world) ++ [[]].
Proof.
  split; [reflexivity|]. split; [reflexivity|].
  apply (destroy_removes_the_row sample_world sample_table "abc" true);
    reflexivity.
Defined.

Lemma clear_deletes_every_row_witness :
  connection sample_world = Some (Some sample_table) /\
  serves (options sample_world) sample_table /\
  exists w' t',
    clear true sample_world = (Ok tt, w') /\
    connection w' = Some (Some t') /\
    rows t' = ∅.
Proof.
  split; [reflexivity|]. split; [reflexivity|].
  apply (clear_deletes_every_row sample_world sample_table true); reflexivity.
Defined.

Lemma touch_of_unknown_session_witness :
  connection sample_world = Some (Some sample_table) /\
  serves (options sample_world) sample_table /\
  Opt.disableTouch (options sample_world) = false /\
  nullish dated_payload = false /\
  rows sample_table !! "new" = None /\
  exists w',
    touch "new" dated_payload sample_world = (Ok tt, w') /\
    connection w' = Some (Some sample_table) /\
    calls (trace w') = calls (trace sample_world) ++ [[]].
Proof.
  split; [reflexivity|]. split; [reflexivity|]. split; [reflexivity|].
  split; [reflexivity|]. split; [vm_compute; reflexivity|].
  apply (touch_of_unknown_session_reports_success sample_world sample_table
           "new" dated_payload);
    [reflexivity|reflexivity|reflexivity|reflexivity|vm_compute; reflexivity].
Defined.

Lemma createDatabaseTable_creates_the_table_witness :
  connection empty_world = Some None /\
  table_of (options empty_world) ∅ = Some empty_table /\
  c_session_id empty_table <> c_expires empty_table /\
  c_session_id empty_table <> c_data empty_table /\
  c_expires empty_table <> c_data empty_table /\
  exists r w',
    createDatabaseTable empty_world = (Ok (Some r), w') /\
    connection w' = Some (Some empty_table) /\
    serves (options w') empty_table /\
    rows empty_table = ∅.
Proof.
  split; [reflexivity|]. split; [reflexivity|]. split; [discriminate|].
  split; [discriminate|]. split; [discriminate|].
  apply (createDatabaseTable_creates_the_table empty_world empty_table);
    [reflexivity|reflexivity|discriminate|discriminate|discriminate].
Defined.

Lemma createDatabaseTable_keeps_existing_table_witness :
  connection armed_world = Some (Some sample_table) /\
  Opt.tableName (Opt.schema (options armed_world)) = t_name sample_table /\
  Opt.column (options armed_world) "session_id" = VStr "sid" /\
  exists r w',
    createDatabaseTable armed_world = (Ok (Some r), w') /\
    connection w' = Some (Some sample_table).
Proof.
  split; [reflexivity|]. split; [reflexivity|]. split; [reflexivity|].
  apply (createDatabaseTable_keeps_existing_table armed_world sample_table);
    reflexivity.
Defined.

Lemma all_loses_ids_witness :
  connection renamed_world = Some (Some renamed_table) /\
  serves (options renamed_world) renamed_table /\
  c_session_id renamed_table <> "session_id" /\
  c_expires renamed_table <> "session_id" /\
  c_data renamed_table <> "session_id" /\
  exists w' sessions,
    all renamed_world = (Ok tt, w') /\
    calls (trace w') =
      calls (trace renamed_world) ++ [[ANull; AVal (VObj sessions)]] /\
    forall k, k <> "undefined" -> assoc k sessions = None.
Proof.
  split; [reflexivity|]. split; [reflexivity|]. split; [discriminate|].
  split; [discriminate|]. split; [discriminate|].
  apply (all_loses_ids_under_custom_column_name renamed_world renamed_table);
    [reflexivity|reflexivity|discriminate|discriminate|discriminate].
Defined.

Import Unreachable.

Lemma close_reports_end_failure_witness :
  state unreachable_world = INITIALIZED /\
  connection unreachable_world = Some (Error "gone") /\
  Opt.endConnectionOnClose (options unreachable_world) = true /\
  exists w',
    close unreachable_world = (Throw (Error "gone"), w') /\
    state w' = CLOSED /\
    connection w' = Some (Error "gone") /\
    expirationInterval w' = None.
Proof.
  split; [reflexivity|]. split; [reflexivity|]. split; [reflexivity|].
  exact (close_reports_end_failure unreachable_world (Error "gone")
           eq_refl eq_refl eq_refl).
Defined.
